(** * hd44780i2c: HD44780 character display behind an MCP23017 port expander

    Shallow embedding of [lcdPi/lcd-hd44780-i2c/hd44780i2c.c] and the
    properties of its protocol layer, its command surface, its string
    rotation and its two presenter threads.

    Conventions.
    - [uint8_t] values are integers of [Z] reduced with [u8] wherever the C
      code stores into a [uint8_t] object.
    - The driver talks to the expander through three primitives of
      [mcp23017.c]; every call is recorded in the [trace] of the [world],
      together with the outcome the bus reported for it.
    - Every [printf] of the driver is recorded, with its format string as
      the source spells it and the values of its arguments, in the [console]
      of the [world]. *)

From Stdlib Require Import ZArith Lia Bool Ascii.
From stdpp Require Import list strings.

Open Scope Z_scope.

(** ** Machine integers *)

Definition u8 (z : Z) : Z := z mod 256.

Definition is_u8 (z : Z) : Prop := 0 <= z < 256.

(** ** Constants of hd44780i2c.h *)

Module Header.

(** Modelled from the spec: the header [hd44780i2c.h] is missing. A nibble
    is the 4-bit half of a byte. *)
Definition BITS_NIBBLE : Z := 4.

(** Modelled from the spec: the header [hd44780i2c.h] is missing. The mode
    argument selects the command register (RS low) or the data register
    (RS high); the source tests [!mode] for a command and multiplies the RS
    mask by [mode]. *)
Definition MODE_COMMAND : Z := 0.
Definition MODE_DATA : Z := 1.

(** Modelled from the spec: the header [hd44780i2c.h] is missing. The
    DDRAM-select bit is the high bit of the command byte, and the start
    addresses of the four rows are 0x00, 0x40, 0x14 and 0x54. *)
Definition ADDRESS_DDRAM : Z := 0x80.
Definition ADDRESS_ROW_0 : Z := 0x00.
Definition ADDRESS_ROW_1 : Z := 0x40.
Definition ADDRESS_ROW_2 : Z := 0x14.
Definition ADDRESS_ROW_3 : Z := 0x54.
Definition DISPLAY_ROWS_MAX : nat := 4.

(** The remaining constants of the missing header are not fixed by the
    spec; the driver is parameterised by them. *)
Record hd44780i2c_h := {
  DISPLAY_ROWS : Z;
  DISPLAY_COLUMNS : Z;
  ADDRESS_CGRAM : Z;
  DISPLAY_CLEAR : Z;
  DISPLAY_HOME : Z;
  FUNCTION_BASE : Z;
  FUNCTION_DATA : Z;
  FUNCTION_LINES : Z;
  FUNCTION_FONT : Z;
  DISPLAY_BASE : Z;
  DISPLAY_ON : Z;
  DISPLAY_CURSOR : Z;
  DISPLAY_BLINK : Z;
  ENTRY_BASE : Z;
  ENTRY_COUNTER : Z;
  ENTRY_SHIFT : Z;
  MOVE_BASE : Z;
  MOVE_DISPLAY : Z;
  MOVE_DIRECTION : Z;
  CUSTOM_CHARS : nat;
  CUSTOM_SIZE : nat;
  TEXT_MAX_LENGTH : nat
}.

(** The instruction set of the HD44780 data sheet on a 20x4 panel: the
    instance used by the worked examples. *)
Definition datasheet_20x4 : hd44780i2c_h := {|
  DISPLAY_ROWS := 4;
  DISPLAY_COLUMNS := 20;
  ADDRESS_CGRAM := 0x40;
  DISPLAY_CLEAR := 0x01;
  DISPLAY_HOME := 0x02;
  FUNCTION_BASE := 0x20;
  FUNCTION_DATA := 0x10;
  FUNCTION_LINES := 0x08;
  FUNCTION_FONT := 0x04;
  DISPLAY_BASE := 0x08;
  DISPLAY_ON := 0x04;
  DISPLAY_CURSOR := 0x02;
  DISPLAY_BLINK := 0x01;
  ENTRY_BASE := 0x04;
  ENTRY_COUNTER := 0x02;
  ENTRY_SHIFT := 0x01;
  MOVE_BASE := 0x10;
  MOVE_DISPLAY := 0x08;
  MOVE_DIRECTION := 0x04;
  CUSTOM_CHARS := 7;
  CUSTOM_SIZE := 8;
  TEXT_MAX_LENGTH := 128
|}.

End Header.
Export Header.

(** ** The display record and the expander port *)

(** [struct hd44780i2c]: the expander handle, the register that drives the
    display, and the masks of the expander pins wired to RS, EN and DB4..DB7.
    The source uses the pin fields as masks: it multiplies them by 0 or 1 and
    ORs the products. *)
Record hd44780i2c := {
  mcp23017 : Z;
  reg : Z;
  rs : Z;
  en : Z;
  db : list Z
}.

Definition db_at (display : hd44780i2c) (i : nat) : Z := nth i (db display) 0.

(** The three register primitives of the expander. *)
Inductive port_op :=
| SetBits (handle register data : Z)
| UnsetBits (handle register data : Z)
| WriteReg (handle register data : Z).

(** What the driver does to the outside: a bus transaction with the outcome
    the bus reported ([true] for success), or a blocking delay in
    microseconds. *)
Inductive event :=
| Port (op : port_op) (ok : bool)
| Usleep (us : Z).

(** One call of [printf]: the format string and the arguments. *)
Inductive printed :=
| Printf (format : string) (args : list Z).

(** The output latch of the display's register, the history of events,
    oldest first, and what the driver has printed, oldest first. *)
Record world := {
  latch : Z;
  trace : list event;
  console : list printed
}.

Definition power_on : world := {| latch := 0; trace := []; console := [] |}.

(** Effect of a successful transaction on the latch. *)
Definition apply_op (op : port_op) (l : Z) : Z :=
  match op with
  | SetBits _ _ data => Z.lor l (u8 data)
  | UnsetBits _ _ data => Z.ldiff l (u8 data)
  | WriteReg _ _ data => u8 data
  end.

Fixpoint transactions (tr : list event) : nat :=
  match tr with
  | [] => O
  | Port _ _ :: tr' => S (transactions tr')
  | Usleep _ :: tr' => transactions tr'
  end.

(** The events of a trace without the reported outcomes. *)
Inductive action :=
| Transact (op : port_op)
| Delay (us : Z).

Definition action_of (e : event) : action :=
  match e with
  | Port op _ => Transact op
  | Usleep us => Delay us
  end.

Definition actions (tr : list event) : list action := map action_of tr.

(** The words handed to the expander by transactions, by kind. *)
Fixpoint set_words (tr : list action) : list Z :=
  match tr with
  | [] => []
  | Transact (SetBits _ _ data) :: tr' => data :: set_words tr'
  | _ :: tr' => set_words tr'
  end.

Fixpoint full_writes (tr : list action) : list Z :=
  match tr with
  | [] => []
  | Transact (WriteReg _ _ data) :: tr' => data :: full_writes tr'
  | _ :: tr' => full_writes tr'
  end.

Definition is_full_write (a : action) : bool :=
  match a with
  | Transact (WriteReg _ _ _) => true
  | _ => false
  end.

(** ** The driver monad: state passing over the world *)

Definition M (A : Type) : Type := world -> A * world.

Definition ret {A} (a : A) : M A := fun w => (a, w).

Definition bind {A B} (m : M A) (k : A -> M B) : M B :=
  fun w => k (fst (m w)) (snd (m w)).

Declare Scope drv_scope.
Delimit Scope drv_scope with drv.
Notation "x <- c1 ;; c2" := (bind c1 (fun x => c2))
  (at level 100, c1 at next level, right associativity) : drv_scope.
Notation "c1 ;; c2" := (bind c1 (fun _ => c2))
  (at level 100, right associativity) : drv_scope.
Open Scope drv_scope.

(** The events a computation adds when run in [w]. *)
Definition emitted {A} (m : M A) (w : world) : list event :=
  drop (length (trace w)) (trace (snd (m w))).

(** What a computation prints when run in [w]. *)
Definition printed_by {A} (m : M A) (w : world) : list printed :=
  drop (length (console w)) (console (snd (m w))).

Definition printf (format : string) (args : list Z) : M unit :=
  fun w => (tt, {| latch := latch w; trace := trace w;
                   console := console w ++ [Printf format args] |}).

(** The bytes announced on the console by [hd44780WriteByte], which prints
    each byte it is given before it sends it: the command bytes and the data
    bytes, each in the order of the calls. *)
Definition command_format : string := "\nCommand byte = 0x%02x.\n".
Definition data_format : string := "\nData byte = 0x%02x.\n".

Fixpoint bytes_announced (format : string) (out : list printed) : list Z :=
  match out with
  | [] => []
  | Printf f [byte] :: out' =>
      if String.eqb f format then byte :: bytes_announced format out'
      else bytes_announced format out'
  | _ :: out' => bytes_announced format out'
  end.

Definition command_bytes (out : list printed) : list Z :=
  bytes_announced command_format out.

Definition data_bytes (out : list printed) : list Z :=
  bytes_announced data_format out.

Section Driver.

(** [bus_ok n] tells whether the [n]-th transaction on the bus succeeds. *)
Variable bus_ok : nat -> bool.
Variable H : hd44780i2c_h.

(** Modelled from the spec: [mcp23017.c] is missing. Each primitive is
    synchronous and either succeeds or fails with a bus-fault indication,
    with no partial success: a failed transaction leaves the register as it
    was. The status is 0 on success and -1 on a bus fault. *)
Definition transact (op : port_op) : M Z :=
  fun w =>
    let ok := bus_ok (transactions (trace w)) in
    (if ok then 0 else -1,
     {| latch := if ok then apply_op op (latch w) else latch w;
        trace := trace w ++ [Port op ok];
        console := console w |}).

Definition mcp23017SetBitsByte (handle register data : Z) : M Z :=
  transact (SetBits handle register data).
Definition mcp23017UnsetBitsByte (handle register data : Z) : M Z :=
  transact (UnsetBits handle register data).
Definition mcp23017WriteByte (handle register data : Z) : M Z :=
  transact (WriteReg handle register data).

Definition usleep (us : Z) : M unit :=
  fun w => (tt, {| latch := latch w; trace := trace w ++ [Usleep us];
                   console := console w |}).

(** *** hd44780ToggleEnable *)

(** Toggles EN without changing other bits. The callers in the source pass
    [display->mcp23017], or the display and a second argument; the function
    is declared on the display and reads its handle, register and EN mask. *)
Definition hd44780ToggleEnable (display : hd44780i2c) : M unit :=
  mcp23017SetBitsByte (mcp23017 display) (reg display) (en display) ;;
  usleep 5000 ;;
  mcp23017UnsetBitsByte (mcp23017 display) (reg display) (en display) ;;
  usleep 5000.

(** *** hd44780WriteByte *)

(** [for ( i = 0; i < BITS_NIBBLE; i++ )
       byte |= display->db[i] * (( nibble < i ) & 0x1 );] *)
Definition add_gpio_bits (display : hd44780i2c) (nibble byte : Z) : Z :=
  fold_left
    (fun byte i =>
       u8 (Z.lor byte
             (db_at display i * Z.land (Z.b2z (nibble <? Z.of_nat i)) 1)))
    (seq 0 (Z.to_nat BITS_NIBBLE)) byte.

(** The byte built for one nibble: [byte = display->rs * mode] followed by
    the loop over the data pins. *)
Definition nibble_word (display : hd44780i2c) (nibble mode : Z) : Z :=
  add_gpio_bits display nibble (u8 (rs display * mode)).

Definition hd44780WriteByte (display : hd44780i2c) (data mode : Z) : M Z :=
  let hi := Z.land (Z.shiftr data BITS_NIBBLE) 0xf in
  let lo := Z.land data 0xf in
  (if mode =? 0 then printf command_format [data]
   else printf data_format [data]) ;;
  (* High nibble first. *)
  let byte := nibble_word display hi mode in
  printf "Writing high nibble 0x%x.\n" [hi] ;;
  mcp23017SetBitsByte (mcp23017 display) (reg display) byte ;;
  printf "Toggling EN bit for high nibble.\n" [] ;;
  hd44780ToggleEnable display ;;
  (* Low nibble next. *)
  let byte := nibble_word display lo mode in
  printf "Writing low nibble 0x%x.\n" [lo] ;;
  mcp23017SetBitsByte (mcp23017 display) (reg display) byte ;;
  printf "Toggling EN bit for low nibble.\n" [] ;;
  hd44780ToggleEnable display ;;
  ret 0.

(** *** hd44780WriteString *)

(** [strlen]: the characters before the first NUL. *)
Fixpoint strlen (string : list ascii) : nat :=
  match string with
  | [] => O
  | c :: string' => if Ascii.eqb c zero then O else S (strlen string')
  end.

(** A [char] passed as the [uint8_t data] argument. *)
Definition char_u8 (c : ascii) : Z := Z.of_N (N_of_ascii c).

(** [for ( i = 0; i < strlen( string ); i++ )] with [uint8_t i]: the
    counter wraps at 256. [None] says that the loop did not finish within
    [fuel] iterations. *)
Fixpoint write_string_loop (fuel : nat) (display : hd44780i2c)
         (string : list ascii) (i : Z) : M (option Z) :=
  match fuel with
  | O => ret None
  | S fuel' =>
      if i <? Z.of_nat (strlen string) then
        hd44780WriteByte display (char_u8 (nth (Z.to_nat i) string zero))
                         MODE_DATA ;;
        write_string_loop fuel' display string (u8 (i + 1))
      else ret (Some 0)
  end.

(** The counter takes at most 256 values, so a run that has not left the
    loop after 257 tests never does. *)
Definition hd44780WriteString (display : hd44780i2c) (string : list ascii)
  : M (option Z) :=
  write_string_loop 257 display string 0.

(** *** hd44780Goto *)

(** [rows[row]]: the array has [DISPLAY_ROWS_MAX] entries; reading past it
    is undefined in C and yields 0 here. *)
Definition rows : list Z :=
  [ADDRESS_ROW_0; ADDRESS_ROW_1; ADDRESS_ROW_2; ADDRESS_ROW_3].

Definition hd44780Goto (display : hd44780i2c) (row pos : Z) : M Z :=
  if (pos <? 0) || (pos >? DISPLAY_COLUMNS H - 1) then ret (-1)
  else if (row <? 0) || (row >? DISPLAY_ROWS H - 1) then ret (-1)
  else
    hd44780WriteByte display
      (u8 (Z.lor ADDRESS_DDRAM (nth (Z.to_nat row) rows 0) + pos))
      MODE_COMMAND ;;
    ret 0.

(** *** displayClear, displayHome *)

Definition displayClear (display : hd44780i2c) : M Z :=
  hd44780WriteByte display (u8 (DISPLAY_CLEAR H)) MODE_COMMAND ;;
  usleep 1600 ;;
  ret 0.


(** *** initialiseDisplay *)

(** [FUNCTION_BASE | ( data * FUNCTION_DATA ) | ...]: a [bool] multiplied
    by a flag value. *)
Definition flag (b : bool) (value : Z) : Z := Z.b2z b * value.

Definition function_set (data lines font : bool) : Z :=
  u8 (Z.lor (Z.lor (Z.lor (FUNCTION_BASE H) (flag data (FUNCTION_DATA H)))
                   (flag lines (FUNCTION_LINES H)))
            (flag font (FUNCTION_FONT H))).

Definition entry_mode (counter shift : bool) : Z :=
  u8 (Z.lor (Z.lor (ENTRY_BASE H) (flag counter (ENTRY_COUNTER H)))
            (flag shift (ENTRY_SHIFT H))).

Definition display_mode (display_on cursor blink : bool) : Z :=
  u8 (Z.lor (Z.lor (Z.lor (DISPLAY_BASE H) (flag display_on (DISPLAY_ON H)))
                   (flag cursor (DISPLAY_CURSOR H)))
            (flag blink (DISPLAY_BLINK H))).

Definition move_mode (mode direction : bool) : Z :=
  u8 (Z.lor (Z.lor (MOVE_BASE H) (flag mode (MOVE_DISPLAY H)))
            (flag direction (MOVE_DIRECTION H))).

(** The [bool] parameter that the source also calls [display] is
    [display_on] here, and [mcp23017WriteByte( display, 0x03 )] is the write
    of 0x03 to the register of the display. *)
Definition initialiseDisplay (display : hd44780i2c)
           (data lines font display_on cursor blink counter shift
            mode direction : bool) : M Z :=
  (* Allow a start-up delay. *)
  usleep 42000 ;;
  (* Low nibbles only as display starts off in 8-bit mode. *)
  printf "\nInitialising LCD display.\n\n" [] ;;
  mcp23017WriteByte (mcp23017 display) (reg display) 0x03 ;;
  hd44780ToggleEnable display ;;
  usleep 4200 ;;
  mcp23017WriteByte (mcp23017 display) (reg display) 0x03 ;;
  hd44780ToggleEnable display ;;
  usleep 150 ;;
  mcp23017WriteByte (mcp23017 display) (reg display) 0x03 ;;
  hd44780ToggleEnable display ;;
  usleep 150 ;;
  mcp23017WriteByte (mcp23017 display) (reg display) 0x02 ;;
  hd44780ToggleEnable display ;;
  usleep 50 ;;
  (* Set actual function mode. *)
  printf "\nSetting LCD functions.\n" [] ;;
  hd44780WriteByte display (function_set data lines font) MODE_COMMAND ;;
  (* Display off. *)
  hd44780WriteByte display (u8 (DISPLAY_BASE H)) MODE_COMMAND ;;
  (* Set entry mode. *)
  hd44780WriteByte display (entry_mode counter shift) MODE_COMMAND ;;
  (* Set display properties. *)
  hd44780WriteByte display (display_mode display_on cursor blink)
                   MODE_COMMAND ;;
  (* Set initial display/cursor movement mode. *)
  hd44780WriteByte display (move_mode mode direction) MODE_COMMAND ;;
  (* Goto start of DDRAM. *)
  hd44780WriteByte display (u8 ADDRESS_DDRAM) MODE_COMMAND ;;
  (* Wipe any previous display. *)
  displayClear display ;;
  printf "\nFinished initialising LCD display.\n" [] ;;
  ret 0.

(** *** setEntryMode, setDisplayMode, setMoveMode *)




(** *** loadCustom *)

(** Runs the body for each index of [0 .. n-1] in turn. *)
Fixpoint for_each (indices : list nat) (body : nat -> M Z) : M unit :=
  match indices with
  | [] => ret tt
  | i :: indices' => body i ;; for_each indices' body
  end.

(** [newChar[i][j]] of a [CUSTOM_CHARS] x [CUSTOM_SIZE] table. *)
Definition glyph_row (newChar : list (list Z)) (i j : nat) : Z :=
  nth j (nth i newChar []) 0.

Definition loadCustom (display : hd44780i2c) (newChar : list (list Z))
  : M Z :=
  hd44780WriteByte display (u8 (ADDRESS_CGRAM H)) MODE_COMMAND ;;
  for_each (seq 0 (CUSTOM_CHARS H)) (fun i =>
    for_each (seq 0 (CUSTOM_SIZE H)) (fun j =>
      hd44780WriteByte display (u8 (glyph_row newChar i j)) MODE_DATA) ;;
    ret 0) ;;
  hd44780WriteByte display (u8 ADDRESS_DDRAM) MODE_COMMAND ;;
  ret 0.

End Driver.

(** The glyph table of the source. *)
Definition pacMan : list (list Z) :=
  [ [0x00; 0x00; 0x0e; 0x1b; 0x1f; 0x1f; 0x0e; 0x00];
    [0x00; 0x00; 0x0f; 0x16; 0x1c; 0x1e; 0x0f; 0x00];
    [0x00; 0x0e; 0x19; 0x1d; 0x1f; 0x1f; 0x15; 0x00];
    [0x00; 0x0e; 0x13; 0x17; 0x1f; 0x1f; 0x1b; 0x00];
    [0x00; 0x0a; 0x1f; 0x1f; 0x1f; 0x0e; 0x04; 0x00];
    [0x00; 0x00; 0x0a; 0x0e; 0x0e; 0x04; 0x00; 0x00];
    [0x00; 0x00; 0x1e; 0x0d; 0x07; 0x0f; 0x1e; 0x00] ].

(** The pin assignment used by the worked examples: DB4..DB7 on bits 0..3 of
    the output latch, EN on bit 6 and RS on bit 7. *)
Definition example_display : hd44780i2c :=
  {| mcp23017 := 0; reg := 0x14; rs := 0x80; en := 0x40;
     db := [0x01; 0x02; 0x04; 0x08] |}.

(** A bus on which every transaction succeeds. *)
Definition reliable_bus : nat -> bool := fun _ => true.

(** ** Display functions: string reversal and rotation *)

Open Scope nat_scope.

(** [while ( start < end )] of [reverseString]. Reading or writing outside
    the buffer is undefined in C: the model stops with [None]. The loop runs
    [end - start] times at most, so [reverseString] starts it with that much
    fuel and never runs out. *)
Fixpoint reverse_loop (fuel : nat) (buffer : list ascii) (start end_ : nat)
  : option (list ascii) :=
  if start <? end_ then
    match fuel with
    | O => None
    | S fuel' =>
        let end_ := end_ - 1 in
        temp ← buffer !! start;
        last ← buffer !! end_;
        reverse_loop fuel' (<[end_ := temp]> (<[start := last]> buffer))
                     (S start) end_
    end
  else Some buffer.

Definition reverseString (buffer : list ascii) (start end_ : nat)
  : option (list ascii) :=
  reverse_loop (end_ - start) buffer start end_.

(** [increments %= length] divides by zero when [length] is 0: undefined in
    C, [None] here. *)
Definition rotateString (buffer : list ascii) (length increments : nat)
  : option (list ascii) :=
  if length =? 0 then None
  else
    let increments := increments mod length in
    buffer ← reverseString buffer 0 increments;
    buffer ← reverseString buffer increments length;
    reverseString buffer 0 length.

(** ** The presenter threads *)

(** [struct tickerStruct] and [struct Calendar]; their declarations are in
    the missing header, the fields are the ones the source reads. *)
Record tickerStruct := {
  ticker_display : hd44780i2c;
  ticker_text : list ascii;
  ticker_length : nat;
  ticker_padding : nat;
  ticker_row : Z;
  ticker_increment : nat;
  ticker_delay : Z
}.

Record Calendar := {
  calendar_display : hd44780i2c;
  calendar_row : Z;
  calendar_col : Z;
  calendar_length : nat;
  calendar_format : list (list ascii);
  calendar_delay : Z
}.

(** What a stretch of thread-local code does to the thread. *)
Inductive local_result (L : Type) :=
| Next (locals : L)
| ThreadExit
| Fault.
Arguments Next {L} locals.
Arguments ThreadExit {L}.
Arguments Fault {L}.

(** [buffer[i] = c] inside the buffer; outside it is undefined. *)
Definition store (buffer : list ascii) (i : nat) (c : ascii)
  : option (list ascii) :=
  if i <? length buffer then Some (<[i := c]> buffer) else None.

(** [for ( i = from; i < from + count; i++ ) text[i] = ' ';] *)
Fixpoint pad (count : nat) (text : list ascii) (i : nat)
  : option (list ascii) :=
  match count with
  | O => Some text
  | S count' => text ← store text i " "%char; pad count' text (S i)
  end.

(** The locals of [displayTicker]: its parameter block and the text window
    [buffer]. *)
Record ticker_locals := {
  ticker : tickerStruct;
  ticker_buffer : list ascii
}.

(** The locals of [displayCalendar]. [reading] counts the calls of [time]. *)
Record calendar_locals := {
  calendar : Calendar;
  calendar_buffer : list ascii;
  frame : Z;
  reading : nat
}.

(** The characters of a C string, without the terminator. *)
Definition c_string (buffer : list ascii) : list ascii :=
  take (strlen buffer) buffer.

(** Where a presenter thread stands. *)
Inductive pc :=
| AtStart
| AtLoopHead
| AtLock
| InBurst (pending : list action)
| AfterUnlock
| Exited
| Undefined.

Inductive tid := TickerThread | CalendarThread.

(** What the threads share: the display behind its expander, the mutex
    [displayBusy] with its owner, and, for the proofs, the display operations
    performed so far with the thread that performed each. *)
Record shared := {
  display_world : world;
  displayBusy : option tid;
  log : list (tid * action)
}.

(** A presenter: the code before its loop, the thread-local code at the head
    of the loop, the display operations between [pthread_mutex_lock] and
    [pthread_mutex_unlock], and the thread-local code after the unlock. *)
Record presenter (L : Type) := {
  startup : L -> local_result L;
  loop_head : L -> L;
  burst : L -> list action;
  loop_tail : L -> local_result L
}.
Arguments startup {L}.
Arguments loop_head {L}.
Arguments burst {L}.
Arguments loop_tail {L}.

Record system := {
  shared_state : shared;
  ticker_thread : pc * ticker_locals;
  calendar_thread : pc * calendar_locals
}.

Section Presenters.

Variable bus_ok : nat -> bool.
Variable H : hd44780i2c_h.

(** The display helpers the presenters call are not defined in the source
    file ([gotoRowPos], [hd44780writeString], [writeDataString]); each is
    taken as the list of display operations it performs. *)
Variable gotoRowPos : hd44780i2c -> Z -> Z -> list action.
Variable hd44780writeString : hd44780i2c -> list ascii -> list action.
Variable writeDataString : list ascii -> list action.

(** [strftime( buffer, maxsize, format, localtime( &timeVar ) )] at the
    [n]-th reading of the clock. *)
Variable strftime : nat -> list ascii -> nat -> list ascii.

(** One display operation carried out on the world. *)
Definition perform (a : action) (w : world) : world :=
  match a with
  | Transact op => snd (transact bus_ok op w)
  | Delay us => snd (usleep us w)
  end.

Definition perform_all (acts : list action) (w : world) : world :=
  fold_left (fun w a => perform a w) acts w.

(** *** displayTicker *)

(** Before the loop: the size check, then the padding. *)
Definition displayTicker_start (l : ticker_locals) : local_result ticker_locals :=
  let t := ticker l in
  (* Close thread if text string is too big. *)
  if TEXT_MAX_LENGTH H <? ticker_length t + ticker_padding t then ThreadExit
  else
    (* Add some padding so rotated text looks better. *)
    match
      text ← pad (ticker_padding t) (ticker_text t) (ticker_length t);
      store text (ticker_length t + ticker_padding t) zero
    with
    | None => Fault
    | Some text =>
        Next {| ticker := {| ticker_display := ticker_display t;
                             ticker_text := text;
                             ticker_length := strlen text;
                             ticker_padding := ticker_padding t;
                             ticker_row := ticker_row t;
                             ticker_increment := ticker_increment t;
                             ticker_delay := ticker_delay t |};
                ticker_buffer := ticker_buffer l |}
    end.

(** [strncpy( buffer, ticker->text, DISPLAY_COLUMNS )]: the window holds the
    first [DISPLAY_COLUMNS] characters of the text. (A text that fills the
    window leaves it without terminator in C.) *)
Definition displayTicker_head (l : ticker_locals) : ticker_locals :=
  {| ticker := ticker l;
     ticker_buffer :=
       take (Z.to_nat (DISPLAY_COLUMNS H)) (c_string (ticker_text (ticker l))) |}.

Definition displayTicker_burst (l : ticker_locals) : list action :=
  gotoRowPos (ticker_display (ticker l)) (ticker_row (ticker l)) 0%Z
  ++ hd44780writeString (ticker_display (ticker l)) (ticker_buffer l).

(** After the unlock: [nanosleep], which no other thread observes, then the
    rotation of the text. *)
Definition displayTicker_tail (l : ticker_locals) : local_result ticker_locals :=
  let t := ticker l in
  match rotateString (ticker_text t) (ticker_length t) (ticker_increment t) with
  | None => Fault
  | Some text =>
      Next {| ticker := {| ticker_display := ticker_display t;
                           ticker_text := text;
                           ticker_length := ticker_length t;
                           ticker_padding := ticker_padding t;
                           ticker_row := ticker_row t;
                           ticker_increment := ticker_increment t;
                           ticker_delay := ticker_delay t |};
              ticker_buffer := ticker_buffer l |}
  end.

Definition displayTicker : presenter ticker_locals :=
  {| startup := displayTicker_start;
     loop_head := displayTicker_head;
     burst := displayTicker_burst;
     loop_tail := displayTicker_tail |}.

(** *** displayCalendar *)

Definition displayCalendar_start (l : calendar_locals)
  : local_result calendar_locals :=
  Next {| calendar := calendar l; calendar_buffer := [];
          frame := 0%Z; reading := reading l |}.

(** [if ( frame > 1 ) frame = 0;], the formatting of the current time with
    [format[frame]], then [frame++] on a [uint8_t]. *)
Definition displayCalendar_head (l : calendar_locals) : calendar_locals :=
  let frame := if (frame l >? 1)%Z then 0%Z else frame l in
  {| calendar := calendar l;
     calendar_buffer :=
       strftime (calendar_length (calendar l))
                (nth (Z.to_nat frame) (calendar_format (calendar l)) [])
                (reading l);
     frame := u8 (frame + 1);
     reading := S (reading l) |}.

Definition displayCalendar_burst (l : calendar_locals) : list action :=
  gotoRowPos (calendar_display (calendar l)) (calendar_row (calendar l))
             (calendar_col (calendar l))
  ++ writeDataString (calendar_buffer l).

(** After the unlock the calendar only sleeps. *)
Definition displayCalendar_tail (l : calendar_locals)
  : local_result calendar_locals :=
  Next l.

Definition displayCalendar : presenter calendar_locals :=
  {| startup := displayCalendar_start;
     loop_head := displayCalendar_head;
     burst := displayCalendar_burst;
     loop_tail := displayCalendar_tail |}.

(** *** Interleaving of the two threads *)

Definition after_local {L} (l : L) (r : local_result L) : pc * L :=
  match r with
  | Next l' => (AtLoopHead, l')
  | ThreadExit => (Exited, l)
  | Fault => (Undefined, l)
  end.

(** One atomic step of the thread [me]. [pthread_mutex_lock] succeeds when
    the mutex is free and blocks otherwise; each display operation of the
    burst is a step of its own; [pthread_mutex_unlock] frees the mutex. *)
Definition step_thread {L} (P : presenter L) (me : tid) (th : pc * L)
           (sh : shared) : (pc * L) * shared :=
  match fst th with
  | AtStart => (after_local (snd th) (startup P (snd th)), sh)
  | AtLoopHead => ((AtLock, loop_head P (snd th)), sh)
  | AtLock =>
      match displayBusy sh with
      | None =>
          ((InBurst (burst P (snd th)), snd th),
           {| display_world := display_world sh;
              displayBusy := Some me;
              log := log sh |})
      | Some _ => (th, sh)
      end
  | InBurst (a :: pending) =>
      ((InBurst pending, snd th),
       {| display_world := perform a (display_world sh);
          displayBusy := displayBusy sh;
          log := log sh ++ [(me, a)] |})
  | InBurst [] =>
      ((AfterUnlock, snd th),
       {| display_world := display_world sh;
          displayBusy := None;
          log := log sh |})
  | AfterUnlock => (after_local (snd th) (loop_tail P (snd th)), sh)
  | Exited => (th, sh)
  | Undefined => (th, sh)
  end.

Definition step (s : system) (t : tid) : system :=
  match t with
  | TickerThread =>
      let r := step_thread displayTicker TickerThread (ticker_thread s)
                           (shared_state s) in
      {| shared_state := snd r;
         ticker_thread := fst r;
         calendar_thread := calendar_thread s |}
  | CalendarThread =>
      let r := step_thread displayCalendar CalendarThread (calendar_thread s)
                           (shared_state s) in
      {| shared_state := snd r;
         ticker_thread := ticker_thread s;
         calendar_thread := fst r |}
  end.

(** The system after the scheduler has run the threads in the order of
    [schedule]. *)
Definition run (schedule : list tid) (s : system) : system :=
  fold_left step schedule s.

(** Both threads created, nothing written yet, the mutex free. *)
Definition boot (t : tickerStruct) (c : Calendar) : system :=
  {| shared_state := {| display_world := power_on; displayBusy := None;
                        log := [] |};
     ticker_thread := (AtStart, {| ticker := t; ticker_buffer := [] |});
     calendar_thread := (AtStart, {| calendar := c; calendar_buffer := [];
                                     frame := 0%Z; reading := O |}) |}.

(** *** Bursts in the log *)

Definition tagged (t : tid) (acts : list action) : list (tid * action) :=
  map (pair t) acts.

(** The program counter of a thread and the burst it writes under the
    lock: its own [gotoRowPos] and string write, on its own data. *)
Definition pc_of (s : system) (t : tid) : pc :=
  match t with
  | TickerThread => fst (ticker_thread s)
  | CalendarThread => fst (calendar_thread s)
  end.

Definition burst_of (s : system) (t : tid) : list action :=
  match t with
  | TickerThread => displayTicker_burst (snd (ticker_thread s))
  | CalendarThread => displayCalendar_burst (snd (calendar_thread s))
  end.

(** The burst begun by the step of [t] in [s], if that step takes the mutex:
    the mutex is free before the step and owned after it. *)
Definition begun (s : system) (t : tid) : list (tid * list action) :=
  match displayBusy (shared_state s),
        displayBusy (shared_state (step s t)) with
  | None, Some _ => [(t, burst_of s t)]
  | _, _ => []
  end.

(** The bursts begun along a schedule, in the order in which the mutex was
    taken, each with the thread that took it. *)
Fixpoint bursts_begun (schedule : list tid) (s : system)
  : list (tid * list action) :=
  match schedule with
  | [] => []
  | t :: schedule' => begun s t ++ bursts_begun schedule' (step s t)
  end.

End Presenters.

Close Scope nat_scope.

(** The world with [out] printed after what the console holds. *)
Definition print_all (out : list printed) (w : world) : world :=
  {| latch := latch w; trace := trace w; console := console w ++ out |}.

(** [scripted m acts out]: in every world, [m] carries out the display
    operations [acts] and prints [out], each in this order, and does nothing
    else. *)
Definition scripted {A} bus_ok (m : M A) (acts : list action)
           (out : list printed) : Prop :=
  forall w, snd (m w) = print_all out (perform_all bus_ok acts w).


(** ** Scripts: the display operations of each driver function *)

(** The EN pulse of [hd44780ToggleEnable]: set, 5 ms, clear, 5 ms. *)
Definition toggle_script (display : hd44780i2c) : list action :=
  [ Transact (SetBits (mcp23017 display) (reg display) (en display));
    Delay 5000;
    Transact (UnsetBits (mcp23017 display) (reg display) (en display));
    Delay 5000 ].

(** One nibble: the word handed to the expander, then the EN pulse. *)
Definition nibble_script (display : hd44780i2c) (nibble mode : Z)
  : list action :=
  Transact (SetBits (mcp23017 display) (reg display)
                    (nibble_word display nibble mode))
  :: toggle_script display.

Definition high_nibble (data : Z) : Z := Z.land (Z.shiftr data BITS_NIBBLE) 0xf.
Definition low_nibble (data : Z) : Z := Z.land data 0xf.

Definition write_byte_script (display : hd44780i2c) (data mode : Z)
  : list action :=
  nibble_script display (high_nibble data) mode
  ++ nibble_script display (low_nibble data) mode.

(** What [hd44780WriteByte] prints for one byte. *)
Definition write_byte_console (data mode : Z) : list printed :=
  [ Printf (if mode =? 0 then command_format else data_format) [data];
    Printf "Writing high nibble 0x%x.\n" [high_nibble data];
    Printf "Toggling EN bit for high nibble.\n" [];
    Printf "Writing low nibble 0x%x.\n" [low_nibble data];
    Printf "Toggling EN bit for low nibble.\n" [] ].

(** What is printed while each byte of a list is sent. *)
Definition announce_all (mode : Z) (bytes : list Z) : list printed :=
  concat (map (fun byte => write_byte_console byte mode) bytes).

(** The word the spec asks for: RS iff the mode is Data, and the pin of
    DB(4+i) iff bit [i] of the nibble is 1. *)
Definition spec_nibble_word (display : hd44780i2c) (nibble mode : Z) : Z :=
  fold_left
    (fun byte i =>
       Z.lor byte (if Z.testbit nibble (Z.of_nat i) then db_at display i else 0))
    (seq 0 4)
    (if mode =? MODE_DATA then rs display else 0).

(** A bus whose first transaction fails. *)
Definition first_fails : nat -> bool := fun n => negb (Nat.eqb n 0).

(** [rows[row]] of [hd44780Goto]. *)
Definition row_start (row : Z) : Z := nth (Z.to_nat row) rows 0.

(** [0 <= row < DISPLAY_ROWS] and [0 <= pos < DISPLAY_COLUMNS]. *)
Definition on_panel (H : hd44780i2c_h) (row pos : Z) : bool :=
  (0 <=? row) && (row <? DISPLAY_ROWS H)
  && (0 <=? pos) && (pos <? DISPLAY_COLUMNS H).

(** One bring-up pulse of [initialiseDisplay]: the nibble written to the
    whole register, then EN toggled directly. *)
Definition raw_pulse (display : hd44780i2c) (nibble : Z) : list action :=
  Transact (WriteReg (mcp23017 display) (reg display) nibble)
  :: toggle_script display.

(** The command bytes [initialiseDisplay] sends once the controller is in
    4-bit mode, in program order: function set, display off, entry mode,
    display mode, move mode, DDRAM address 0, clear. *)
Definition bring_up_commands (H : hd44780i2c_h)
           (data lines font display_on cursor blink counter shift
            mode direction : bool) : list Z :=
  [ function_set H data lines font;
    u8 (DISPLAY_BASE H);
    entry_mode H counter shift;
    display_mode H display_on cursor blink;
    move_mode H mode direction;
    u8 ADDRESS_DDRAM;
    u8 (DISPLAY_CLEAR H) ].

(** The display operations of sending each byte of a list with
    [hd44780WriteByte]. *)
Definition send_all (display : hd44780i2c) (mode : Z) (bytes : list Z)
  : list action :=
  concat (map (fun byte => write_byte_script display byte mode) bytes).

(** ** Vocabulary for the presenter threads *)

#[global] Instance tid_eq_dec : EqDecision tid.
Proof. solve_decision. Defined.

(** A thread that is not between its lock and its unlock. *)
Definition idle {L} (th : pc * L) : Prop :=
  forall pending, fst th <> InBurst pending.

(** The log made of the given bursts, each whole, one after the other. *)
Definition flat (bursts : list (tid * list action)) : list (tid * action) :=
  concat (map (fun b => tagged (fst b) (snd b)) bursts).

(** What the log looks like when [taken] lists the bursts begun so far: the
    bursts are in the log whole and in the order in which the mutex was
    taken, except the burst of the present owner of the mutex, of which the
    log holds the part already written; only the owner is inside a burst;
    and the log is what the display has seen. *)
Definition tracks (s : system) (taken : list (tid * list action)) : Prop :=
  map snd (log (shared_state s)) = actions (trace (display_world (shared_state s)))
  /\ match displayBusy (shared_state s) with
     | None =>
         log (shared_state s) = flat taken
         /\ idle (ticker_thread s) /\ idle (calendar_thread s)
     | Some TickerThread =>
         exists earlier done pending,
           taken = earlier ++ [(TickerThread, done ++ pending)]
           /\ fst (ticker_thread s) = InBurst pending
           /\ log (shared_state s) = flat earlier ++ tagged TickerThread done
           /\ idle (calendar_thread s)
     | Some CalendarThread =>
         exists earlier done pending,
           taken = earlier ++ [(CalendarThread, done ++ pending)]
           /\ fst (calendar_thread s) = InBurst pending
           /\ log (shared_state s) = flat earlier ++ tagged CalendarThread done
           /\ idle (ticker_thread s)
     end.

(** The steps of a schedule that belong to the calendar. *)
Definition calendar_steps (schedule : list tid) : list tid :=
  filter (fun t => t = CalendarThread) schedule.

(** The presenters with the helpers resolved to the display functions of
    this driver, on a reliable bus and the 20x4 panel: the instance used by
    the worked examples. *)
Definition script {A} (m : M A) : list action := actions (emitted m power_on).

Definition example_gotoRowPos (display : hd44780i2c) (row pos : Z)
  : list action :=
  script (hd44780Goto reliable_bus datasheet_20x4 display row pos).

Definition example_writeString (display : hd44780i2c) (string : list ascii)
  : list action :=
  script (hd44780WriteString reliable_bus display string).

Definition example_strftime (maxsize : nat) (format : list ascii) (n : nat)
  : list ascii :=
  take (maxsize - 1) format.

(** A ticker whose text and padding do not fit [TEXT_MAX_LENGTH] = 128. *)
Definition oversized_ticker : tickerStruct :=
  {| ticker_display := example_display;
     ticker_text := replicate 200 "a"%char;
     ticker_length := 120;
     ticker_padding := 20;
     ticker_row := 0;
     ticker_increment := 1;
     ticker_delay := 300 |}.

Definition example_calendar : Calendar :=
  {| calendar_display := example_display;
     calendar_row := 1;
     calendar_col := 0;
     calendar_length := 20;
     calendar_format := [["1"; "2"; ":"; "0"; "0"]%char;
                         ["1"; "2"; " "; "0"; "0"]%char];
     calendar_delay := 1 |}.

(** A ticker that fits: the text "hi" in a buffer of eight characters, one
    character of padding. *)
Definition small_ticker : tickerStruct :=
  {| ticker_display := example_display;
     ticker_text := ["h"; "i"; zero; zero; zero; zero; zero; zero]%char;
     ticker_length := 2;
     ticker_padding := 1;
     ticker_row := 0;
     ticker_increment := 1;
     ticker_delay := 300 |}.

(** The threads that wrote a log, with the number of consecutive operations
    of each. *)
Fixpoint writers (l : list (tid * action)) : list (tid * nat) :=
  match l with
  | [] => []
  | (t, _) :: l' =>
      match writers l' with
      | (t', n) :: rest =>
          if decide (t = t') then (t, S n) :: rest
          else (t, 1%nat) :: (t', n) :: rest
      | [] => [(t, 1%nat)]
      end
  end.

(** The scheduler that gives the two threads one step each in turn. *)
Fixpoint round_robin (rounds : nat) : list tid :=
  match rounds with
  | O => []
  | S rounds' => TickerThread :: CalendarThread :: round_robin rounds'
  end.

(** * Properties *)

(** ** Traces of the driver monad *)

Lemma actions_app (tr1 tr2 : list event) :
  actions (tr1 ++ tr2) = actions tr1 ++ actions tr2.
Proof. apply map_app. Qed.

Lemma perform_trace bus_ok (a : action) (w : world) :
  exists e, trace (perform bus_ok a w) = trace w ++ [e] /\ action_of e = a.
Proof.
  destruct a as [op | us]; simpl.
  - exists (Port op (bus_ok (transactions (trace w)))). split; reflexivity.
  - exists (Usleep us). split; reflexivity.
Qed.

Lemma perform_all_trace bus_ok (acts : list action) :
  forall w, exists evs,
    trace (perform_all bus_ok acts w) = trace w ++ evs /\ actions evs = acts.
Proof.
  induction acts as [| a acts IH]; intros w.
  - exists []. simpl. rewrite app_nil_r. split; reflexivity.
  - destruct (perform_trace bus_ok a w) as (e & He & Ha).
    destruct (IH (perform bus_ok a w)) as (evs & Hevs & Hacts).
    exists (e :: evs). split.
    + change (perform_all bus_ok (a :: acts) w)
        with (perform_all bus_ok acts (perform bus_ok a w)).
      rewrite Hevs, He, <- app_assoc. reflexivity.
    + simpl. rewrite Ha, Hacts. reflexivity.
Qed.

Lemma perform_all_app bus_ok (acts1 acts2 : list action) (w : world) :
  perform_all bus_ok (acts1 ++ acts2) w
  = perform_all bus_ok acts2 (perform_all bus_ok acts1 w).
Proof. apply fold_left_app. Qed.

Lemma perform_print bus_ok (a : action) out w :
  perform bus_ok a (print_all out w) = print_all out (perform bus_ok a w).
Proof. destruct a; reflexivity. Qed.

Lemma perform_all_print bus_ok (acts : list action) out :
  forall w,
    perform_all bus_ok acts (print_all out w)
    = print_all out (perform_all bus_ok acts w).
Proof.
  induction acts as [| a acts IH]; intros w; [reflexivity |].
  change (perform_all bus_ok (a :: acts) (print_all out w))
    with (perform_all bus_ok acts (perform bus_ok a (print_all out w))).
  rewrite perform_print, IH. reflexivity.
Qed.

Lemma print_all_app out1 out2 w :
  print_all out2 (print_all out1 w) = print_all (out1 ++ out2) w.
Proof. unfold print_all. cbn. rewrite app_assoc. reflexivity. Qed.

Lemma perform_console bus_ok (a : action) w :
  console (perform bus_ok a w) = console w.
Proof. destruct a; reflexivity. Qed.

Lemma perform_all_console bus_ok (acts : list action) :
  forall w, console (perform_all bus_ok acts w) = console w.
Proof.
  induction acts as [| a acts IH]; intros w; [reflexivity |].
  change (perform_all bus_ok (a :: acts) w)
    with (perform_all bus_ok acts (perform bus_ok a w)).
  rewrite IH. apply perform_console.
Qed.

(** ** Computations that follow a script *)

(** A computation that follows a script emits exactly its display
    operations and prints exactly its lines. *)
Lemma scripted_emitted {A} bus_ok (m : M A) acts out w :
  scripted bus_ok m acts out -> actions (emitted m w) = acts.
Proof.
  intros Hm. unfold emitted. rewrite Hm. cbn [print_all trace].
  destruct (perform_all_trace bus_ok acts w) as (evs & Htr & Hacts).
  rewrite Htr, drop_app_length. exact Hacts.
Qed.

Lemma scripted_printed {A} bus_ok (m : M A) acts out w :
  scripted bus_ok m acts out -> printed_by m w = out.
Proof.
  intros Hm. unfold printed_by. rewrite Hm. cbn [print_all console].
  rewrite perform_all_console. apply drop_app_length.
Qed.

Lemma scripted_eq {A} bus_ok (m : M A) acts acts' out out' :
  scripted bus_ok m acts out -> acts = acts' -> out = out' ->
  scripted bus_ok m acts' out'.
Proof. intros Hm <- <-. exact Hm. Qed.

Lemma scripted_ret {A} bus_ok (a : A) : scripted bus_ok (ret a) [] [].
Proof.
  intros w. unfold print_all. cbn. rewrite app_nil_r. destruct w; reflexivity.
Qed.

Lemma scripted_bind {A B} bus_ok (m : M A) (k : A -> M B)
      acts1 acts2 out1 out2 :
  scripted bus_ok m acts1 out1 ->
  (forall a, scripted bus_ok (k a) acts2 out2) ->
  scripted bus_ok (bind m k) (acts1 ++ acts2) (out1 ++ out2).
Proof.
  intros Hm Hk w. unfold bind.
  rewrite Hk, Hm, perform_all_print, print_all_app, perform_all_app.
  reflexivity.
Qed.

Lemma scripted_transact bus_ok op :
  scripted bus_ok (transact bus_ok op) [Transact op] [].
Proof. intros w. unfold print_all. cbn. rewrite app_nil_r. reflexivity. Qed.

Lemma scripted_usleep bus_ok us : scripted bus_ok (usleep us) [Delay us] [].
Proof. intros w. unfold print_all. cbn. rewrite app_nil_r. reflexivity. Qed.

Lemma scripted_printf bus_ok format args :
  scripted bus_ok (printf format args) [] [Printf format args].
Proof. intros w. reflexivity. Qed.

(** [if ( !mode ) printf( ... ); else printf( ... );] *)
Lemma scripted_printf_either bus_ok (c : bool) format1 format2 args :
  scripted bus_ok (if c then printf format1 args else printf format2 args)
           [] [Printf (if c then format1 else format2) args].
Proof. destruct c; apply scripted_printf. Qed.

Lemma scripted_toggle bus_ok display :
  scripted bus_ok (hd44780ToggleEnable bus_ok display)
           (toggle_script display) [].
Proof.
  unfold hd44780ToggleEnable, mcp23017SetBitsByte, mcp23017UnsetBitsByte.
  eapply scripted_eq.
  - eapply scripted_bind; [apply scripted_transact | intros ?].
    eapply scripted_bind; [apply scripted_usleep | intros ?].
    eapply scripted_bind; [apply scripted_transact | intros ?].
    apply scripted_usleep.
  - reflexivity.
  - reflexivity.
Qed.

(** Brings both sides of an equation between scripts to the same shape. *)
Ltac script_shape :=
  repeat (cbn [app map concat]; rewrite <- ?app_assoc, ?app_nil_r);
  reflexivity.

Lemma scripted_write_byte bus_ok display data mode :
  scripted bus_ok (hd44780WriteByte bus_ok display data mode)
           (write_byte_script display data mode)
           (write_byte_console data mode).
Proof.
  unfold hd44780WriteByte, mcp23017SetBitsByte.
  cbn zeta. fold (high_nibble data). fold (low_nibble data).
  eapply scripted_eq.
  - eapply scripted_bind; [apply scripted_printf_either | intros ?].
    eapply scripted_bind; [apply scripted_printf | intros ?].
    eapply scripted_bind; [apply scripted_transact | intros ?].
    eapply scripted_bind; [apply scripted_printf | intros ?].
    eapply scripted_bind; [apply scripted_toggle | intros ?].
    eapply scripted_bind; [apply scripted_printf | intros ?].
    eapply scripted_bind; [apply scripted_transact | intros ?].
    eapply scripted_bind; [apply scripted_printf | intros ?].
    eapply scripted_bind; [apply scripted_toggle | intros ?].
    apply scripted_ret.
  - unfold write_byte_script, nibble_script. script_shape.
  - unfold write_byte_console. script_shape.
Qed.

(** ** hd44780WriteByte *)

Lemma hd44780WriteByte_run bus_ok display data mode w :
  hd44780WriteByte bus_ok display data mode w
  = (0, print_all (write_byte_console data mode)
          (perform_all bus_ok (write_byte_script display data mode) w)).
Proof.
  apply injective_projections; cbn [fst snd].
  - reflexivity.
  - apply scripted_write_byte.
Qed.

Lemma hd44780WriteByte_actions bus_ok display data mode w :
  actions (emitted (hd44780WriteByte bus_ok display data mode) w)
  = write_byte_script display data mode.
Proof. eapply (scripted_emitted bus_ok), scripted_write_byte. Qed.

(** [hd44780WriteByte] announces the byte it is given: one line with the
    byte, under the command or the data heading according to the mode. *)
Lemma write_byte_console_command data :
  command_bytes (write_byte_console data MODE_COMMAND) = [data]
  /\ data_bytes (write_byte_console data MODE_COMMAND) = [].
Proof. split; reflexivity. Qed.

Lemma bytes_announced_app format out1 out2 :
  bytes_announced format (out1 ++ out2)
  = bytes_announced format out1 ++ bytes_announced format out2.
Proof.
  induction out1 as [| [f args] out1 IH]; [reflexivity |].
  cbn [app bytes_announced].
  destruct args as [| byte [| ? ?]]; [exact IH | | exact IH].
  destruct (String.eqb f format); cbn [app]; rewrite IH; reflexivity.
Qed.

Lemma announce_all_commands bytes :
  command_bytes (announce_all MODE_COMMAND bytes) = bytes
  /\ data_bytes (announce_all MODE_COMMAND bytes) = [].
Proof.
  unfold command_bytes, data_bytes, announce_all.
  induction bytes as [| byte bytes [IHc IHd]]; [split; reflexivity |].
  cbn [map concat]. rewrite !bytes_announced_app, IHc, IHd.
  split; reflexivity.
Qed.


(** C1 (the code departs from the claim). [hd44780WriteByte] does emit two
    words, high nibble first, each followed by one EN pulse, and RS follows
    the mode; but the data pins are driven from the comparison [nibble < i]
    and not from bit [i] of the nibble. For the byte 0x41 in data mode on the
    example pin assignment the code hands over 0x80 (no data pin) and then
    0x8c (DB6 and DB7), where the claim asks for 0x84 (data bits 0100) and
    then 0x81 (data bits 0001). *)
Theorem hd44780WriteByte_0x41_data_pins :
  forall bus_ok w,
    actions (emitted (hd44780WriteByte bus_ok example_display 0x41 MODE_DATA) w)
    = [ Transact (SetBits 0 0x14 0x80);
        Transact (SetBits 0 0x14 0x40); Delay 5000;
        Transact (UnsetBits 0 0x14 0x40); Delay 5000;
        Transact (SetBits 0 0x14 0x8c);
        Transact (SetBits 0 0x14 0x40); Delay 5000;
        Transact (UnsetBits 0 0x14 0x40); Delay 5000 ]
    /\ spec_nibble_word example_display (high_nibble 0x41) MODE_DATA = 0x84
    /\ spec_nibble_word example_display (low_nibble 0x41) MODE_DATA = 0x81.
Proof.
  intros bus_ok w. split; [| split; reflexivity].
  rewrite hd44780WriteByte_actions. reflexivity.
Qed.

(** The data pins of the code's word on the example pin assignment: pin
    DB(4+i) is high exactly when the nibble is below [i]. *)
Lemma nibble_word_example_pins (nibble mode : Z) (i : nat) :
  0 <= nibble < 16 -> (mode = MODE_COMMAND \/ mode = MODE_DATA) -> (i < 4)%nat ->
  Z.testbit (nibble_word example_display nibble mode) (Z.of_nat i)
  = (nibble <? Z.of_nat i).
Proof.
  intros Hn Hm Hi.
  assert (Hcases : nibble = 0 \/ nibble = 1 \/ nibble = 2 \/ nibble = 3
                   \/ 4 <= nibble) by lia.
  destruct Hm as [-> | ->];
    destruct i as [| [| [| [| i]]]]; try lia;
    destruct Hcases as [-> | [-> | [-> | [-> | Hge]]]]; try reflexivity;
    unfold nibble_word, add_gpio_bits; simpl;
    repeat match goal with
           | |- context [nibble <? ?k] =>
               replace (nibble <? k) with false by (symmetry; apply Z.ltb_ge; lia)
           end; reflexivity.
Qed.

(** C2 (the code departs from the claim). Neither nibble word is delivered
    by a full-byte write: [hd44780WriteByte] performs no [mcp23017WriteByte]
    at all and hands both words to [mcp23017SetBitsByte], which only raises
    bits. On the example display, starting from an all-low latch, the command
    byte 0x0f leaves the latch at 0x0e after the low-nibble word 0x00 has
    been delivered: the data pins raised for the high nibble stay raised. *)
Theorem hd44780WriteByte_never_writes_register :
  (forall bus_ok display data mode w,
      full_writes (actions (emitted (hd44780WriteByte bus_ok display data mode) w))
      = []
      /\ set_words (actions (emitted (hd44780WriteByte bus_ok display data mode) w))
         = [ nibble_word display (high_nibble data) mode; en display;
             nibble_word display (low_nibble data) mode; en display ])
  /\ nibble_word example_display (low_nibble 0x0f) MODE_COMMAND = 0x00
  /\ latch (snd (hd44780WriteByte reliable_bus example_display 0x0f
                                  MODE_COMMAND power_on)) = 0x0e.
Proof.
  split; [| split; vm_compute; reflexivity].
  intros bus_ok display data mode w.
  rewrite hd44780WriteByte_actions. split; reflexivity.
Qed.


(** C6 (counterexample). The first expander write of [hd44780WriteByte]
    fails with a bus fault and the call still returns 0. *)
Lemma hd44780WriteByte_swallows_bus_fault :
  head (trace (snd (hd44780WriteByte first_fails example_display 0x41 MODE_DATA
                                     power_on)))
  = Some (Port (SetBits 0 0x14 0x80) false)
  /\ fst (hd44780WriteByte first_fails example_display 0x41 MODE_DATA power_on)
     = 0.
Proof. split; vm_compute; reflexivity. Qed.

(** C6 (amended). [hd44780WriteByte] never looks at the outcome of an
    expander write: whichever transactions fail, it returns 0 and carries out
    the same six transactions, each once and in the same order, so a failed
    write is neither reported nor retried, and it does not end the
    sequence. *)
Theorem hd44780WriteByte_ignores_bus_faults :
  forall bus_ok display data mode w,
    fst (hd44780WriteByte bus_ok display data mode w) = 0
    /\ actions (emitted (hd44780WriteByte bus_ok display data mode) w)
       = write_byte_script display data mode
    /\ transactions (emitted (hd44780WriteByte bus_ok display data mode) w) = 6%nat.
Proof.
  intros bus_ok display data mode w. split; [reflexivity |].
  split; [apply hd44780WriteByte_actions |].
  unfold emitted. rewrite hd44780WriteByte_run.
  destruct (perform_all_trace bus_ok (write_byte_script display data mode) w)
    as (evs & Htr & Hacts).
  cbn [snd print_all trace]. rewrite Htr, drop_app_length.
  unfold write_byte_script, nibble_script, toggle_script in Hacts.
  repeat (destruct evs as [| [? ? | ?] evs]; try discriminate Hacts).
  reflexivity.
Qed.

(** ** hd44780Goto *)

Lemma lor_ddram (x : Z) :
  0 <= x < 128 -> Z.lor ADDRESS_DDRAM x = ADDRESS_DDRAM + x.
Proof.
  intros Hx. unfold ADDRESS_DDRAM.
  assert (Hland : Z.land 128 x = 0).
  { assert (Hlow : x = Z.land (Z.ones 7) x).
    { rewrite Z.land_comm, Z.land_ones by lia.
      symmetry. apply Z.mod_small. change (2 ^ 7) with 128. lia. }
    rewrite Hlow, Z.land_assoc. reflexivity. }
  pose proof (Z.add_lor_land 128 x) as Hadd. lia.
Qed.

Lemma row_start_cases (row : Z) :
  0 <= row < 4 ->
  row_start row = 0 \/ row_start row = 0x40
  \/ row_start row = 0x14 \/ row_start row = 0x54.
Proof.
  intros Hrow.
  assert (Hr : row = 0 \/ row = 1 \/ row = 2 \/ row = 3) by lia.
  destruct Hr as [-> | [-> | [-> | ->]]]; cbv; tauto.
Qed.

(** The byte [( ADDRESS_DDRAM | rows[row] ) + pos], stored in a [uint8_t],
    is the DDRAM-select bit ORed with the address of the position. *)
Lemma goto_command_byte (row pos : Z) :
  0 <= row < 4 -> 0 <= pos < 40 ->
  u8 (Z.lor ADDRESS_DDRAM (row_start row) + pos)
  = Z.lor ADDRESS_DDRAM (row_start row + pos).
Proof.
  intros Hrow Hpos.
  pose proof (row_start_cases row Hrow) as Hstart.
  rewrite (lor_ddram (row_start row + pos)) by lia.
  rewrite (lor_ddram (row_start row)) by lia.
  unfold u8, ADDRESS_DDRAM. rewrite Z.mod_small by lia. lia.
Qed.

Lemma hd44780Goto_result bus_ok H display row pos w :
  fst (hd44780Goto bus_ok H display row pos w)
  = if on_panel H row pos then 0 else -1.
Proof.
  unfold on_panel, hd44780Goto.
  destruct (Z.leb_spec 0 row), (Z.ltb_spec row (DISPLAY_ROWS H)),
    (Z.leb_spec 0 pos), (Z.ltb_spec pos (DISPLAY_COLUMNS H)),
    (Z.ltb_spec pos 0), (Z.gtb_spec pos (DISPLAY_COLUMNS H - 1)),
    (Z.ltb_spec row 0), (Z.gtb_spec row (DISPLAY_ROWS H - 1));
    try lia; reflexivity.
Qed.

Lemma emitted_nothing {A} (m : M A) (w : world) :
  snd (m w) = w -> emitted m w = [].
Proof. intros Hw. unfold emitted. rewrite Hw. apply drop_all. Qed.

Lemma printed_nothing {A} (m : M A) (w : world) :
  snd (m w) = w -> printed_by m w = [].
Proof. intros Hw. unfold printed_by. rewrite Hw. apply drop_all. Qed.

(** On a position of the panel [hd44780Goto] is one call of
    [hd44780WriteByte], on the byte of the position and in command mode. *)
Lemma scripted_goto bus_ok H display row pos :
  DISPLAY_ROWS H <= Z.of_nat DISPLAY_ROWS_MAX ->
  DISPLAY_COLUMNS H <= 40 ->
  on_panel H row pos = true ->
  scripted bus_ok (hd44780Goto bus_ok H display row pos)
    (write_byte_script display
       (Z.lor ADDRESS_DDRAM (row_start row + pos)) MODE_COMMAND)
    (write_byte_console
       (Z.lor ADDRESS_DDRAM (row_start row + pos)) MODE_COMMAND).
Proof.
  intros Hrows Hcols Hon. unfold on_panel in Hon. unfold hd44780Goto.
  destruct (Z.leb_spec 0 row), (Z.ltb_spec row (DISPLAY_ROWS H)),
    (Z.leb_spec 0 pos), (Z.ltb_spec pos (DISPLAY_COLUMNS H)),
    (Z.ltb_spec pos 0), (Z.gtb_spec pos (DISPLAY_COLUMNS H - 1)),
    (Z.ltb_spec row 0), (Z.gtb_spec row (DISPLAY_ROWS H - 1));
    try lia; try discriminate Hon; cbn [andb orb].
  fold (row_start row).
  rewrite goto_command_byte by (unfold DISPLAY_ROWS_MAX in Hrows; lia).
  eapply scripted_eq.
  - eapply scripted_bind; [apply scripted_write_byte | intros ?].
    apply scripted_ret.
  - script_shape.
  - script_shape.
Qed.

Lemma hd44780Goto_off_panel bus_ok H display row pos w :
  on_panel H row pos = false ->
  hd44780Goto bus_ok H display row pos w = (-1, w).
Proof.
  intros Hoff. unfold on_panel in Hoff. unfold hd44780Goto.
  destruct (Z.leb_spec 0 row), (Z.ltb_spec row (DISPLAY_ROWS H)),
    (Z.leb_spec 0 pos), (Z.ltb_spec pos (DISPLAY_COLUMNS H)),
    (Z.ltb_spec pos 0), (Z.gtb_spec pos (DISPLAY_COLUMNS H - 1)),
    (Z.ltb_spec row 0), (Z.gtb_spec row (DISPLAY_ROWS H - 1));
    try lia; try discriminate Hoff; reflexivity.
Qed.

(** C3. On a panel of at most [DISPLAY_ROWS_MAX] rows and at most 40 columns
    (the line length of the controller), [hd44780Goto] on a position of the
    panel returns 0 and hands exactly one byte to [hd44780WriteByte], as a
    command and no data byte: the DDRAM-select bit 0x80 ORed with
    [rowStart[row] + column], the row start addresses being 0x00, 0x40, 0x14
    and 0x54; the byte is the one announced on the console, and the display
    operations are those of that one byte. On any other position it returns
    -1, announces no byte and performs no display operation at all. On the
    20x4 panel, row 1 and column 3 give the command byte 0xc3. *)
Theorem hd44780Goto_one_command_or_nothing :
  forall bus_ok H display row pos w,
    DISPLAY_ROWS H <= Z.of_nat DISPLAY_ROWS_MAX ->
    DISPLAY_COLUMNS H <= 40 ->
    let goto := hd44780Goto bus_ok H display row pos in
    let command :=
      Z.lor 0x80 (nth (Z.to_nat row) [0x00; 0x40; 0x14; 0x54] 0 + pos) in
    (fst (goto w),
     command_bytes (printed_by goto w),
     data_bytes (printed_by goto w),
     actions (emitted goto w))
    = (if on_panel H row pos
       then (0, [command], [],
             write_byte_script display command MODE_COMMAND)
       else (-1, [], [], []))
    /\ command_bytes
         (printed_by (hd44780Goto bus_ok datasheet_20x4 display 1 3) w)
       = [0xc3]
    /\ actions (emitted (hd44780Goto bus_ok datasheet_20x4 display 1 3) w)
       = write_byte_script display 0xc3 MODE_COMMAND.
Proof.
  intros bus_ok H display row pos w Hrows Hcols goto command.
  split; [| split].
  - destruct (on_panel H row pos) eqn:Hon.
    + pose proof (scripted_goto bus_ok H display row pos Hrows Hcols Hon)
        as Hgoto.
      change (Z.lor ADDRESS_DDRAM (row_start row + pos)) with command in Hgoto.
      unfold goto.
      rewrite (scripted_printed bus_ok _ _ _ w Hgoto).
      rewrite (scripted_emitted bus_ok _ _ _ w Hgoto).
      destruct (write_byte_console_command command) as [-> ->].
      rewrite hd44780Goto_result, Hon. reflexivity.
    + unfold goto.
      rewrite (hd44780Goto_off_panel bus_ok H display row pos w Hon).
      rewrite printed_nothing, emitted_nothing by
        (rewrite (hd44780Goto_off_panel bus_ok H display row pos w Hon);
         reflexivity).
      reflexivity.
  - assert (Hgoto : scripted bus_ok
                      (hd44780Goto bus_ok datasheet_20x4 display 1 3)
                      (write_byte_script display 0xc3 MODE_COMMAND)
                      (write_byte_console 0xc3 MODE_COMMAND)).
    { apply (scripted_goto bus_ok datasheet_20x4 display 1 3);
        vm_compute; congruence. }
    rewrite (scripted_printed bus_ok _ _ _ w Hgoto). reflexivity.
  - assert (Hgoto : scripted bus_ok
                      (hd44780Goto bus_ok datasheet_20x4 display 1 3)
                      (write_byte_script display 0xc3 MODE_COMMAND)
                      (write_byte_console 0xc3 MODE_COMMAND)).
    { apply (scripted_goto bus_ok datasheet_20x4 display 1 3);
        vm_compute; congruence. }
    exact (scripted_emitted bus_ok _ _ _ w Hgoto).
Qed.

(** The 20x4 panel, row 1, column 3: one command byte 0xc3. *)
Lemma hd44780Goto_one_command_or_nothing_witness :
  DISPLAY_ROWS datasheet_20x4 <= Z.of_nat DISPLAY_ROWS_MAX
  /\ DISPLAY_COLUMNS datasheet_20x4 <= 40
  /\ (let goto := hd44780Goto reliable_bus datasheet_20x4 example_display 1 3 in
      (fst (goto power_on),
       command_bytes (printed_by goto power_on),
       data_bytes (printed_by goto power_on),
       actions (emitted goto power_on))
      = (0, [0xc3], [], write_byte_script example_display 0xc3 MODE_COMMAND)).
Proof.
  split; [vm_compute; discriminate |].
  split; [vm_compute; discriminate |].
  exact (proj1 (hd44780Goto_one_command_or_nothing
                  reliable_bus datasheet_20x4 example_display 1 3 power_on
                  ltac:(vm_compute; discriminate)
                  ltac:(vm_compute; discriminate))).
Defined.

(** ** initialiseDisplay *)

(** Walks down a sequence of driver calls, collecting its script. *)
Ltac script_step :=
  lazymatch goal with
  | |- scripted _ (ret _) _ _ => apply scripted_ret
  | |- scripted _ (transact _ _) _ _ => apply scripted_transact
  | |- scripted _ (usleep _) _ _ => apply scripted_usleep
  | |- scripted _ (printf _ _) _ _ => apply scripted_printf
  | |- scripted _ (if _ then printf _ _ else printf _ _) _ _ =>
      apply scripted_printf_either
  | |- scripted _ (hd44780ToggleEnable _ _) _ _ => apply scripted_toggle
  | |- scripted _ (hd44780WriteByte _ _ _ _) _ _ => apply scripted_write_byte
  | |- scripted _ (bind _ _) _ _ => eapply scripted_bind; [| intros ?]
  end.

Ltac script_walk := repeat script_step.

Lemma scripted_clear bus_ok H display :
  scripted bus_ok (displayClear bus_ok H display)
           (write_byte_script display (u8 (DISPLAY_CLEAR H)) MODE_COMMAND
            ++ [Delay 1600])
           (write_byte_console (u8 (DISPLAY_CLEAR H)) MODE_COMMAND).
Proof.
  unfold displayClear. eapply scripted_eq; [script_walk | |]; script_shape.
Qed.

Lemma scripted_initialiseDisplay bus_ok H display data lines font display_on
      cursor blink counter shift mode direction :
  scripted bus_ok
    (initialiseDisplay bus_ok H display data lines font display_on cursor
                       blink counter shift mode direction)
    ([Delay 42000]
     ++ raw_pulse display 0x03 ++ [Delay 4200]
     ++ raw_pulse display 0x03 ++ [Delay 150]
     ++ raw_pulse display 0x03 ++ [Delay 150]
     ++ raw_pulse display 0x02 ++ [Delay 50]
     ++ send_all display MODE_COMMAND
          (bring_up_commands H data lines font display_on cursor blink
                             counter shift mode direction)
     ++ [Delay 1600])
    ([ Printf "\nInitialising LCD display.\n\n" [];
       Printf "\nSetting LCD functions.\n" [] ]
     ++ announce_all MODE_COMMAND
          (bring_up_commands H data lines font display_on cursor blink
                             counter shift mode direction)
     ++ [ Printf "\nFinished initialising LCD display.\n" [] ]).
Proof.
  unfold initialiseDisplay, mcp23017WriteByte.
  eapply scripted_eq.
  - script_walk. apply scripted_clear.
  - unfold raw_pulse, send_all, bring_up_commands. script_shape.
  - unfold announce_all, bring_up_commands. script_shape.
Qed.

(** C4. Whatever the options, [initialiseDisplay] performs, in this order:
    the start-up delay; three pulses of the nibble 0x3 followed by delays of
    4200, 150 and 150 microseconds (at least 4.1 ms, 100 us and 100 us) and
    one pulse of the nibble 0x2 followed by 50 microseconds (at least 37 us),
    each pulse being a write of the nibble to the whole register and a
    direct EN toggle; then the display operations of seven bytes sent with
    [hd44780WriteByte], and the settle delay of the clear. The only
    whole-register writes are the four pulses. The bytes handed to
    [hd44780WriteByte], as it announces them, are all commands and are, in
    this order: function set, display off, entry mode, display mode, move
    mode, DDRAM address 0 (0x80) and clear. *)
Theorem initialiseDisplay_sequence :
  forall bus_ok H display data lines font display_on cursor blink counter
         shift mode direction w,
    let init := initialiseDisplay bus_ok H display data lines font display_on
                                  cursor blink counter shift mode direction in
    fst (init w) = 0
    /\ actions (emitted init w)
       = [Delay 42000]
         ++ raw_pulse display 0x03 ++ [Delay 4200]
         ++ raw_pulse display 0x03 ++ [Delay 150]
         ++ raw_pulse display 0x03 ++ [Delay 150]
         ++ raw_pulse display 0x02 ++ [Delay 50]
         ++ send_all display MODE_COMMAND
              (bring_up_commands H data lines font display_on cursor blink
                                 counter shift mode direction)
         ++ [Delay 1600]
    /\ full_writes (actions (emitted init w)) = [0x03; 0x03; 0x03; 0x02]
    /\ command_bytes (printed_by init w)
       = [ function_set H data lines font;
           u8 (DISPLAY_BASE H);
           entry_mode H counter shift;
           display_mode H display_on cursor blink;
           move_mode H mode direction;
           0x80;
           u8 (DISPLAY_CLEAR H) ]
    /\ data_bytes (printed_by init w) = [].
Proof.
  intros bus_ok H display data lines font display_on cursor blink counter
         shift mode direction w init.
  pose proof (scripted_initialiseDisplay bus_ok H display data lines font
                display_on cursor blink counter shift mode direction)
    as Hinit.
  pose proof (scripted_emitted bus_ok init _ _ w Hinit) as Hacts.
  pose proof (scripted_printed bus_ok init _ _ w Hinit) as Hout.
  destruct (announce_all_commands
              (bring_up_commands H data lines font display_on cursor blink
                                 counter shift mode direction))
    as [Hcommands Hdata].
  split; [reflexivity |]. split; [exact Hacts |].
  split; [rewrite Hacts; reflexivity |].
  rewrite Hout. unfold command_bytes, data_bytes in *.
  rewrite !bytes_announced_app, Hcommands, Hdata.
  split; reflexivity.
Qed.

(** ** The command surface and the missing initialised flag *)




Lemma strlen_le_length (string : list ascii) :
  (strlen string <= length string)%nat.
Proof.
  induction string as [| c string IH]; cbn [strlen length]; [lia |].
  destruct (Ascii.eqb c zero); lia.
Qed.

Lemma c_string_from (string : list ascii) (i : nat) :
  (i < strlen string)%nat ->
  drop i (c_string string)
  = nth i string zero :: drop (S i) (c_string string).
Proof.
  intros Hi. pose proof (strlen_le_length string) as Hlen.
  apply drop_S. unfold c_string. rewrite lookup_take_lt by exact Hi.
  destruct (nth_lookup_or_length string i zero) as [Hsome | Hshort];
    [exact Hsome | lia].
Qed.

Lemma announce_all_cons mode byte bytes :
  announce_all mode (byte :: bytes)
  = write_byte_console byte mode ++ announce_all mode bytes.
Proof. reflexivity. Qed.

Lemma send_all_cons display mode byte bytes :
  send_all display mode (byte :: bytes)
  = write_byte_script display byte mode ++ send_all display mode bytes.
Proof. reflexivity. Qed.

(** Within the range of its counter the loop of [hd44780WriteString] sends
    the characters of the string from position [i] on, each as a data byte,
    in order. *)
Lemma write_string_loop_scripted bus_ok display string :
  Z.of_nat (strlen string) < 256 ->
  forall fuel i,
    (i <= strlen string)%nat ->
    (strlen string - i < fuel)%nat ->
    scripted bus_ok
      (write_string_loop bus_ok fuel display string (Z.of_nat i))
      (send_all display MODE_DATA (map char_u8 (drop i (c_string string))))
      (announce_all MODE_DATA (map char_u8 (drop i (c_string string)))).
Proof.
  intros Hlen. induction fuel as [| fuel IH]; intros i Hi Hfuel; [lia |].
  cbn [write_string_loop].
  destruct (Z.ltb_spec (Z.of_nat i) (Z.of_nat (strlen string))) as [Hlt | Hge].
  - rewrite c_string_from by lia. cbn [map].
    rewrite send_all_cons, announce_all_cons.
    rewrite Nat2Z.id.
    apply scripted_bind; [apply scripted_write_byte | intros _].
    replace (u8 (Z.of_nat i + 1)) with (Z.of_nat (S i))
      by (unfold u8; rewrite Z.mod_small by lia; lia).
    apply IH; lia.
  - replace i with (strlen string) by lia.
    unfold c_string. rewrite drop_ge by (rewrite length_take; lia).
    apply scripted_ret.
Qed.

Lemma hd44780WriteString_actions bus_ok display string w :
  Z.of_nat (strlen string) < 256 ->
  actions (emitted (hd44780WriteString bus_ok display string) w)
  = send_all display MODE_DATA (map char_u8 (c_string string)).
Proof.
  intros Hlen. eapply (scripted_emitted bus_ok).
  apply (write_string_loop_scripted bus_ok display string Hlen 257 0); lia.
Qed.




(** ** String reversal and rotation *)

Open Scope nat_scope.

Lemma swapped_lookup (buffer : list ascii) start end_ x y i :
  start < length buffer -> end_ < length buffer ->
  (<[end_ := x]> (<[start := y]> buffer)) !! i
  = if decide (i = end_) then Some x
    else if decide (i = start) then Some y
    else buffer !! i.
Proof.
  intros Hs He.
  destruct (decide (i = end_)) as [-> | Hne].
  - apply list_lookup_insert_eq. rewrite length_insert. exact He.
  - rewrite list_lookup_insert_ne by congruence.
    destruct (decide (i = start)) as [-> | Hns].
    + apply list_lookup_insert_eq. exact Hs.
    + apply list_lookup_insert_ne. congruence.
Qed.

(** What the swapping loop computes, position by position: inside
    [start, end) the characters are mirrored, outside nothing moves. The loop
    always finishes on the fuel [reverseString] gives it. *)
Lemma reverse_loop_lookup :
  forall fuel (buffer : list ascii) start end_,
    end_ <= length buffer ->
    end_ - start <= fuel ->
    exists buffer',
      reverse_loop fuel buffer start end_ = Some buffer'
      /\ length buffer' = length buffer
      /\ forall i,
          buffer' !! i
          = if (start <=? i) && (i <? end_)
            then buffer !! (start + end_ - 1 - i)
            else buffer !! i.
Proof.
  induction fuel as [| fuel IH]; intros buffer start end_ Hend Hfuel.
  - exists buffer. cbn [reverse_loop].
    destruct (Nat.ltb_spec start end_) as [Hlt | Hge]; [lia |].
    split; [reflexivity |]. split; [reflexivity |]. intros i.
    destruct (Nat.leb_spec start i), (Nat.ltb_spec i end_);
      cbn [andb]; try reflexivity; lia.
  - cbn [reverse_loop].
    destruct (Nat.ltb_spec start end_) as [Hlt | Hge].
    + destruct (lookup_lt_is_Some_2 buffer start) as [x Hx]; [lia |].
      destruct (lookup_lt_is_Some_2 buffer (end_ - 1)) as [y Hy]; [lia |].
      rewrite Hx, Hy. cbn [mbind option_bind].
      set (swapped := <[end_ - 1 := x]> (<[start := y]> buffer)).
      assert (Hlen : length swapped = length buffer).
      { unfold swapped. rewrite !length_insert. reflexivity. }
      destruct (IH swapped (S start) (end_ - 1)) as (buffer' & Hrun & Hlen' & Hget);
        [lia | lia |].
      exists buffer'. split; [exact Hrun |]. split; [congruence |].
      intros i. rewrite Hget. unfold swapped.
      rewrite !swapped_lookup by lia.
      destruct (Nat.leb_spec (S start) i), (Nat.ltb_spec i (end_ - 1)),
        (Nat.leb_spec start i), (Nat.ltb_spec i end_);
        cbn [andb]; try lia;
        repeat case_decide; try lia; subst;
        rewrite <- ?Hx, <- ?Hy; try reflexivity; f_equal; lia.
    + exists buffer. split; [reflexivity |]. split; [reflexivity |].
      intros i.
      destruct (Nat.leb_spec start i), (Nat.ltb_spec i end_);
        cbn [andb]; try reflexivity; lia.
Qed.

Lemma reverseString_lookup (buffer : list ascii) start end_ :
  end_ <= length buffer ->
  exists buffer',
    reverseString buffer start end_ = Some buffer'
    /\ length buffer' = length buffer
    /\ forall i,
        buffer' !! i
        = if (start <=? i) && (i <? end_)
          then buffer !! (start + end_ - 1 - i)
          else buffer !! i.
Proof.
  intros Hend. unfold reverseString. apply reverse_loop_lookup; lia.
Qed.

Lemma add_mod_wrap i k length :
  i < length -> k < length ->
  (i + k) mod length = if i + k <? length then i + k else i + k - length.
Proof.
  intros Hi Hk. destruct (Nat.ltb_spec (i + k) length) as [Hlt | Hge].
  - apply Nat.mod_small. exact Hlt.
  - symmetry. apply (Nat.mod_unique _ _ 1); lia.
Qed.

(** [rotateString] is a cyclic left rotation of the first [length]
    characters: position [i] receives the character of position
    [(i + increments) mod length], and the rest of the buffer is left as it
    was. *)
Lemma rotateString_lookup (buffer : list ascii) length_ increments :
  1 <= length_ -> length_ <= length buffer ->
  exists buffer',
    rotateString buffer length_ increments = Some buffer'
    /\ length buffer' = length buffer
    /\ forall i,
        buffer' !! i
        = if i <? length_
          then buffer !! ((i + increments) mod length_)
          else buffer !! i.
Proof.
  intros Hpos Hlen. unfold rotateString.
  destruct (Nat.eqb_spec length_ 0) as [Hz | _]; [lia |].
  assert (Hk : increments mod length_ < length_) by (apply Nat.mod_upper_bound; lia).
  set (k := increments mod length_) in *.
  destruct (reverseString_lookup buffer 0 k) as (b1 & Hr1 & Hl1 & Hg1); [lia |].
  destruct (reverseString_lookup b1 k length_) as (b2 & Hr2 & Hl2 & Hg2); [lia |].
  destruct (reverseString_lookup b2 0 length_) as (b3 & Hr3 & Hl3 & Hg3); [lia |].
  rewrite Hr1. cbn [mbind option_bind]. rewrite Hr2. cbn [mbind option_bind].
  exists b3. split; [exact Hr3 |]. split; [congruence |].
  intros i. rewrite Hg3.
  destruct (Nat.ltb_spec i length_) as [Hi | Hi].
  - replace ((0 <=? i) && true) with true by reflexivity.
    rewrite <- Nat.Div0.add_mod_idemp_r. fold k.
    rewrite add_mod_wrap by lia.
    rewrite Hg2.
    destruct (Nat.ltb_spec (i + k) length_) as [Hlt | Hge].
    + destruct (Nat.leb_spec k (0 + length_ - 1 - i)),
        (Nat.ltb_spec (0 + length_ - 1 - i) length_); cbn [andb]; try lia.
      rewrite Hg1.
      destruct (Nat.leb_spec 0 (k + length_ - 1 - (0 + length_ - 1 - i))),
        (Nat.ltb_spec (k + length_ - 1 - (0 + length_ - 1 - i)) k);
        cbn [andb]; try lia.
      f_equal. lia.
    + destruct (Nat.leb_spec k (0 + length_ - 1 - i)),
        (Nat.ltb_spec (0 + length_ - 1 - i) length_); cbn [andb]; try lia.
      rewrite Hg1.
      destruct (Nat.leb_spec 0 (0 + length_ - 1 - i)),
        (Nat.ltb_spec (0 + length_ - 1 - i) k); cbn [andb]; try lia.
      f_equal. lia.
  - rewrite andb_false_r. rewrite Hg2.
    destruct (Nat.leb_spec k i), (Nat.ltb_spec i length_); cbn [andb]; try lia.
    rewrite Hg1.
    destruct (Nat.leb_spec 0 i), (Nat.ltb_spec i k); cbn [andb]; try lia.
    reflexivity.
Qed.

(** C7. On a buffer that holds at least [L] characters, with [L >= 1] and
    [0 <= k < L], [rotateString] by [k] followed by [rotateString] by [L - k]
    both return, and the second returns the buffer as it was before the
    first: its first [L] characters, and all the others, have their original
    values. *)
Theorem rotateString_round_trip :
  forall (buffer : list ascii) L k,
    1 <= L -> L <= length buffer -> k < L ->
    (rotated ← rotateString buffer L k; rotateString rotated L (L - k))
    = Some buffer.
Proof.
  intros buffer L k HL Hlen Hk.
  destruct (rotateString_lookup buffer L k HL Hlen) as (b1 & Hr1 & Hl1 & Hg1).
  destruct (rotateString_lookup b1 L (L - k)) as (b2 & Hr2 & Hl2 & Hg2);
    [lia | lia |].
  rewrite Hr1. cbn [mbind option_bind]. rewrite Hr2. f_equal.
  apply list_eq. intros i. rewrite Hg2.
  destruct (Nat.ltb_spec i L) as [Hi | Hi].
  - rewrite Hg1.
    assert (Hin : (i + (L - k)) mod L < L) by (apply Nat.mod_upper_bound; lia).
    destruct (Nat.ltb_spec ((i + (L - k)) mod L) L) as [_ | Hge]; [| lia].
    f_equal. rewrite Nat.Div0.add_mod_idemp_l.
    replace (i + (L - k) + k) with (i + 1 * L) by lia.
    rewrite Nat.Div0.mod_add. apply Nat.mod_small. exact Hi.
  - rewrite Hg1. destruct (Nat.ltb_spec i L) as [Hlt | _]; [lia | reflexivity].
Qed.

(** A five-character text rotated by 2 and then by 3. *)
Lemma rotateString_round_trip_witness :
  let buffer := ["h"; "e"; "l"; "l"; "o"; zero]%char in
  (rotated ← rotateString buffer 5 2; rotateString rotated 5 (5 - 2))
  = Some buffer.
Proof.
  intros buffer.
  apply (rotateString_round_trip buffer 5 2); vm_compute; lia.
Defined.

(** C10. For every increment, [rotateString] on a buffer that holds at
    least [L >= 1] characters returns a buffer of the same size in which
    every position at index [L] or beyond is unchanged; in particular the
    terminating NUL at index [L] stays where it is. *)
Theorem rotateString_frame :
  forall (buffer : list ascii) L k,
    1 <= L -> L <= length buffer ->
    exists buffer',
      rotateString buffer L k = Some buffer'
      /\ length buffer' = length buffer
      /\ (forall i, L <= i -> buffer' !! i = buffer !! i)
      /\ (buffer !! L = Some zero -> buffer' !! L = Some zero).
Proof.
  intros buffer L k HL Hlen.
  destruct (rotateString_lookup buffer L k HL Hlen) as (b & Hr & Hl & Hg).
  exists b. split; [exact Hr |]. split; [exact Hl |].
  assert (Hframe : forall i, L <= i -> b !! i = buffer !! i).
  { intros i Hi. rewrite Hg.
    destruct (Nat.ltb_spec i L) as [Hlt | _]; [lia | reflexivity]. }
  split; [exact Hframe |].
  intros Hnul. rewrite Hframe by lia. exact Hnul.
Qed.

(** A five-character text with its terminator, rotated by 7. *)
Lemma rotateString_frame_witness :
  exists buffer',
    rotateString ["h"; "e"; "l"; "l"; "o"; zero; "x"]%char 5 7 = Some buffer'
    /\ length buffer' = 7
    /\ (forall i, 5 <= i ->
          buffer' !! i = ["h"; "e"; "l"; "l"; "o"; zero; "x"]%char !! i)
    /\ (["h"; "e"; "l"; "l"; "o"; zero; "x"]%char !! 5 = Some zero ->
        buffer' !! 5 = Some zero).
Proof.
  apply (rotateString_frame ["h"; "e"; "l"; "l"; "o"; zero; "x"]%char 5 7);
    vm_compute; lia.
Defined.

Close Scope nat_scope.

(** ** The presenter threads *)

Section PresenterProofs.

Variable bus_ok : nat -> bool.
Variable H : hd44780i2c_h.
Variable gotoRowPos : hd44780i2c -> Z -> Z -> list action.
Variable hd44780writeString : hd44780i2c -> list ascii -> list action.
Variable writeDataString : list ascii -> list action.
Variable strftime : nat -> list ascii -> nat -> list ascii.

Abbreviation step_thread := (step_thread bus_ok).
Abbreviation step := (step bus_ok H gotoRowPos hd44780writeString writeDataString
                       strftime).
Abbreviation run := (run bus_ok H gotoRowPos hd44780writeString writeDataString
                     strftime).
Abbreviation displayTicker := (displayTicker H gotoRowPos hd44780writeString).
Abbreviation displayCalendar := (displayCalendar gotoRowPos writeDataString strftime).
Abbreviation begun := (begun bus_ok H gotoRowPos hd44780writeString
                             writeDataString strftime).
Abbreviation bursts_begun := (bursts_begun bus_ok H gotoRowPos
                                           hd44780writeString writeDataString
                                           strftime).
Abbreviation burst_of := (burst_of gotoRowPos hd44780writeString
                                   writeDataString).

Lemma after_local_idle {L} (l : L) (r : local_result L) : idle (after_local l r).
Proof. destruct r; intros pending; discriminate. Qed.

(** A thread outside its burst, the mutex free: at [pthread_mutex_lock] it
    takes the mutex and stands at the beginning of the burst it has computed
    from its data; anywhere else it stays outside its burst and leaves the
    mutex free. Nothing is written. *)
Lemma step_thread_idle_free {L} (P : presenter L) me th sh :
  displayBusy sh = None -> idle th ->
  step_thread P me th sh
  = ((InBurst (burst P (snd th)), snd th),
     {| display_world := display_world sh; displayBusy := Some me;
        log := log sh |})
  \/ (displayBusy (snd (step_thread P me th sh)) = None
      /\ idle (fst (step_thread P me th sh))
      /\ display_world (snd (step_thread P me th sh)) = display_world sh
      /\ log (snd (step_thread P me th sh)) = log sh).
Proof.
  intros Hfree Hidle. destruct th as [p l]. unfold step_thread. cbn [fst snd].
  destruct p as [| | | pending | | |]; cbn [fst snd].
  - right. split; [exact Hfree |].
    split; [apply after_local_idle | split; reflexivity].
  - right. split; [exact Hfree |].
    split; [intros pending; discriminate | split; reflexivity].
  - left. rewrite Hfree. reflexivity.
  - exfalso. exact (Hidle pending eq_refl).
  - right. split; [exact Hfree |].
    split; [apply after_local_idle | split; reflexivity].
  - right. split; [exact Hfree |].
    split; [intros pending; discriminate | split; reflexivity].
  - right. split; [exact Hfree |].
    split; [intros pending; discriminate | split; reflexivity].
Qed.

(** A thread outside its burst while the mutex is taken: it touches neither
    the display nor the mutex, and stays outside its burst. *)
Lemma step_thread_idle_busy {L} (P : presenter L) me th sh owner :
  displayBusy sh = Some owner -> idle th ->
  snd (step_thread P me th sh) = sh /\ idle (fst (step_thread P me th sh)).
Proof.
  intros Hbusy Hidle. destruct th as [p l]. unfold step_thread. cbn [fst snd].
  destruct p as [| | | pending | | |]; cbn [fst snd].
  - split; [reflexivity | apply after_local_idle].
  - split; [reflexivity |]. intros pending. discriminate.
  - rewrite Hbusy. split; [reflexivity |]. intros pending. discriminate.
  - exfalso. exact (Hidle pending eq_refl).
  - split; [reflexivity | apply after_local_idle].
  - split; [reflexivity |]. intros pending. discriminate.
  - split; [reflexivity |]. intros pending. discriminate.
Qed.

(** The thread inside its burst performs the next operation of the burst. *)
Lemma step_thread_writes {L} (P : presenter L) me th sh a pending :
  fst th = InBurst (a :: pending) ->
  step_thread P me th sh
  = ((InBurst pending, snd th),
     {| display_world := perform bus_ok a (display_world sh);
        displayBusy := displayBusy sh;
        log := log sh ++ [(me, a)] |}).
Proof.
  intros Hpc. destruct th as [p l]. cbn [fst] in Hpc. subst p. reflexivity.
Qed.

(** The burst being complete, the thread releases the mutex. *)
Lemma step_thread_releases {L} (P : presenter L) me th sh :
  fst th = InBurst [] ->
  step_thread P me th sh
  = ((AfterUnlock, snd th),
     {| display_world := display_world sh; displayBusy := None;
        log := log sh |}).
Proof.
  intros Hpc. destruct th as [p l]. cbn [fst] in Hpc. subst p. reflexivity.
Qed.

Lemma flat_snoc bursts t acts :
  flat (bursts ++ [(t, acts)]) = flat bursts ++ tagged t acts.
Proof.
  unfold flat. rewrite map_app, concat_app. cbn [map concat fst snd].
  rewrite app_nil_r. reflexivity.
Qed.

Lemma tagged_snoc t acts a : tagged t (acts ++ [a]) = tagged t acts ++ [(t, a)].
Proof. unfold tagged. rewrite map_app. reflexivity. Qed.

Lemma log_follows_world (l : list (tid * action)) (w : world) t a :
  map snd l = actions (trace w) ->
  map snd (l ++ [(t, a)]) = actions (trace (perform bus_ok a w)).
Proof.
  intros Hsame. destruct (perform_trace bus_ok a w) as (e & Htr & Ha).
  rewrite Htr, actions_app, map_app, Hsame. cbn. rewrite Ha. reflexivity.
Qed.

Lemma begun_busy s t owner :
  displayBusy (shared_state s) = Some owner -> begun s t = [].
Proof. intros Hbusy. unfold begun. rewrite Hbusy. reflexivity. Qed.

Lemma begun_stays_free s t :
  displayBusy (shared_state s) = None ->
  displayBusy (shared_state (step s t)) = None ->
  begun s t = [].
Proof. intros Hfree Hstill. unfold begun. rewrite Hfree, Hstill. reflexivity. Qed.

Lemma begun_takes s t owner :
  displayBusy (shared_state s) = None ->
  displayBusy (shared_state (step s t)) = Some owner ->
  begun s t = [(t, burst_of s t)].
Proof. intros Hfree Htaken. unfold begun. rewrite Hfree, Htaken. reflexivity. Qed.

(** One step keeps the log in line with the bursts begun. *)
Lemma step_tracks s t taken :
  tracks s taken -> tracks (step s t) (taken ++ begun s t).
Proof.
  intros (Hsame & Hinv).
  destruct t.
  - (* the ticker steps *)
    assert (Hshared : shared_state (step s TickerThread)
                      = snd (step_thread displayTicker TickerThread
                               (ticker_thread s) (shared_state s)))
      by reflexivity.
    assert (Hticker : ticker_thread (step s TickerThread)
                      = fst (step_thread displayTicker TickerThread
                               (ticker_thread s) (shared_state s)))
      by reflexivity.
    assert (Hcalendar : calendar_thread (step s TickerThread)
                        = calendar_thread s) by reflexivity.
    destruct (displayBusy (shared_state s)) as [[|] |] eqn:Hbusy.
    + destruct Hinv as (earlier & done & pending & Htaken & Hpc & Hlog & Hidle).
      rewrite (begun_busy s TickerThread TickerThread Hbusy), app_nil_r.
      unfold tracks. rewrite Hshared, Hticker, Hcalendar.
      destruct pending as [| a pending].
      * rewrite (step_thread_releases displayTicker TickerThread _ _ Hpc).
        cbn [fst snd display_world displayBusy log].
        split; [exact Hsame |].
        split; [| split; [intros pending; discriminate | exact Hidle]].
        rewrite Htaken, flat_snoc, app_nil_r. exact Hlog.
      * rewrite (step_thread_writes displayTicker TickerThread _ _ _ _ Hpc).
        cbn [fst snd display_world displayBusy log]. rewrite Hbusy.
        split; [apply log_follows_world, Hsame |].
        exists earlier, (done ++ [a]), pending.
        split; [rewrite Htaken, <- app_assoc; reflexivity |].
        split; [reflexivity |]. split; [| exact Hidle].
        rewrite Hlog, tagged_snoc, app_assoc. reflexivity.
    + destruct Hinv as (earlier & done & pending & Htaken & Hpc & Hlog & Hidle).
      rewrite (begun_busy s TickerThread CalendarThread Hbusy), app_nil_r.
      destruct (step_thread_idle_busy displayTicker TickerThread
                  (ticker_thread s) (shared_state s) CalendarThread Hbusy Hidle)
        as (Hsh & Hi).
      unfold tracks. rewrite Hshared, Hticker, Hcalendar, Hsh, Hbusy.
      split; [exact Hsame |].
      exists earlier, done, pending. repeat split; assumption.
    + destruct Hinv as (Hlog & Hit & Hic).
      destruct (step_thread_idle_free displayTicker TickerThread
                  (ticker_thread s) (shared_state s) Hbusy Hit)
        as [Htake | (Hb & Hi & Hw & Hl)].
      * rewrite (begun_takes s TickerThread TickerThread Hbusy)
          by (rewrite Hshared, Htake; reflexivity).
        unfold tracks. rewrite Hshared, Hticker, Hcalendar, Htake.
        cbn [fst snd display_world displayBusy log].
        split; [exact Hsame |].
        exists taken, [], (burst_of s TickerThread).
        split; [reflexivity |]. split; [reflexivity |].
        split; [| exact Hic].
        rewrite Hlog. cbn. rewrite app_nil_r. reflexivity.
      * rewrite (begun_stays_free s TickerThread Hbusy)
          by (rewrite Hshared; exact Hb).
        rewrite app_nil_r.
        unfold tracks. rewrite Hshared, Hticker, Hcalendar, Hb, Hw, Hl.
        split; [exact Hsame |]. repeat split; assumption.
  - (* the calendar steps *)
    assert (Hshared : shared_state (step s CalendarThread)
                      = snd (step_thread displayCalendar CalendarThread
                               (calendar_thread s) (shared_state s)))
      by reflexivity.
    assert (Hcalendar : calendar_thread (step s CalendarThread)
                        = fst (step_thread displayCalendar CalendarThread
                                 (calendar_thread s) (shared_state s)))
      by reflexivity.
    assert (Hticker : ticker_thread (step s CalendarThread)
                      = ticker_thread s) by reflexivity.
    destruct (displayBusy (shared_state s)) as [[|] |] eqn:Hbusy.
    + destruct Hinv as (earlier & done & pending & Htaken & Hpc & Hlog & Hidle).
      rewrite (begun_busy s CalendarThread TickerThread Hbusy), app_nil_r.
      destruct (step_thread_idle_busy displayCalendar CalendarThread
                  (calendar_thread s) (shared_state s) TickerThread Hbusy Hidle)
        as (Hsh & Hi).
      unfold tracks. rewrite Hshared, Hticker, Hcalendar, Hsh, Hbusy.
      split; [exact Hsame |].
      exists earlier, done, pending. repeat split; assumption.
    + destruct Hinv as (earlier & done & pending & Htaken & Hpc & Hlog & Hidle).
      rewrite (begun_busy s CalendarThread CalendarThread Hbusy), app_nil_r.
      unfold tracks. rewrite Hshared, Hticker, Hcalendar.
      destruct pending as [| a pending].
      * rewrite (step_thread_releases displayCalendar CalendarThread _ _ Hpc).
        cbn [fst snd display_world displayBusy log].
        split; [exact Hsame |].
        split; [| split; [exact Hidle | intros pending; discriminate]].
        rewrite Htaken, flat_snoc, app_nil_r. exact Hlog.
      * rewrite (step_thread_writes displayCalendar CalendarThread _ _ _ _ Hpc).
        cbn [fst snd display_world displayBusy log]. rewrite Hbusy.
        split; [apply log_follows_world, Hsame |].
        exists earlier, (done ++ [a]), pending.
        split; [rewrite Htaken, <- app_assoc; reflexivity |].
        split; [reflexivity |]. split; [| exact Hidle].
        rewrite Hlog, tagged_snoc, app_assoc. reflexivity.
    + destruct Hinv as (Hlog & Hit & Hic).
      destruct (step_thread_idle_free displayCalendar CalendarThread
                  (calendar_thread s) (shared_state s) Hbusy Hic)
        as [Htake | (Hb & Hi & Hw & Hl)].
      * rewrite (begun_takes s CalendarThread CalendarThread Hbusy)
          by (rewrite Hshared, Htake; reflexivity).
        unfold tracks. rewrite Hshared, Hticker, Hcalendar, Htake.
        cbn [fst snd display_world displayBusy log].
        split; [exact Hsame |].
        exists taken, [], (burst_of s CalendarThread).
        split; [reflexivity |]. split; [reflexivity |].
        split; [| exact Hit].
        rewrite Hlog. cbn. rewrite app_nil_r. reflexivity.
      * rewrite (begun_stays_free s CalendarThread Hbusy)
          by (rewrite Hshared; exact Hb).
        rewrite app_nil_r.
        unfold tracks. rewrite Hshared, Hticker, Hcalendar, Hb, Hw, Hl.
        split; [exact Hsame |]. repeat split; assumption.
Qed.

Lemma run_tracks schedule :
  forall s taken,
    tracks s taken -> tracks (run schedule s) (taken ++ bursts_begun schedule s).
Proof.
  induction schedule as [| t schedule IH]; intros s taken Hs.
  - cbn. rewrite app_nil_r. exact Hs.
  - change (run (t :: schedule) s) with (run schedule (step s t)).
    change (bursts_begun (t :: schedule) s)
      with (begun s t ++ bursts_begun schedule (step s t)).
    rewrite app_assoc. apply IH, step_tracks, Hs.
Qed.

Lemma boot_tracks t c : tracks (boot t c) [].
Proof.
  split; [reflexivity |]. cbn.
  split; [reflexivity |]. split; intros pending; discriminate.
Qed.

(** C9. However the scheduler interleaves the two presenters, started on one
    display with the mutex free, the log of display operations consists of
    the bursts the presenters have begun, each the [gotoRowPos] and string
    write that the presenter computed from its own data when it took the
    mutex, in the order in which the mutex was taken and each in one piece:
    with the mutex free the log is exactly these bursts one after the other;
    with the mutex taken it is the earlier bursts one after the other,
    followed by the part already written of the owner's burst, whose
    remainder is what the owner still has to write. So a burst is complete
    before the first operation of the next one and operations of the two
    presenters are never interleaved. The log is exactly what the expander
    has seen, and the two presenters are never both between their lock and
    their unlock. *)
Theorem presenters_bursts_serialised :
  forall (t : tickerStruct) (c : Calendar) (schedule : list tid),
    let s := run schedule (boot t c) in
    let taken := bursts_begun schedule (boot t c) in
    match displayBusy (shared_state s) with
    | None => log (shared_state s) = flat taken
    | Some owner =>
        exists earlier done pending,
          taken = earlier ++ [(owner, done ++ pending)]
          /\ pc_of s owner = InBurst pending
          /\ log (shared_state s) = flat earlier ++ tagged owner done
    end
    /\ map snd (log (shared_state s))
       = actions (trace (display_world (shared_state s)))
    /\ (idle (ticker_thread s) \/ idle (calendar_thread s)).
Proof.
  intros t c schedule s taken.
  pose proof (run_tracks schedule (boot t c) [] (boot_tracks t c)) as Hs.
  cbn [app] in Hs. fold s in Hs. fold taken in Hs.
  destruct Hs as (Hsame & Hinv).
  destruct (displayBusy (shared_state s)) as [[|] |].
  - destruct Hinv as (earlier & done & pending & Htaken & Hpc & Hlog & Hidle).
    split; [| split; [exact Hsame | right; exact Hidle]].
    exists earlier, done, pending. repeat split; assumption.
  - destruct Hinv as (earlier & done & pending & Htaken & Hpc & Hlog & Hidle).
    split; [| split; [exact Hsame | left; exact Hidle]].
    exists earlier, done, pending. repeat split; assumption.
  - destruct Hinv as (Hlog & Hit & Hic).
    split; [exact Hlog |]. split; [exact Hsame | left; exact Hit].
Qed.

(** An exited thread does nothing any more: the system runs as if only the
    calendar were scheduled. *)
Lemma run_ticker_exited schedule :
  forall s,
    fst (ticker_thread s) = Exited ->
    run schedule s = run (calendar_steps schedule) s
    /\ ticker_thread (run schedule s) = ticker_thread s.
Proof.
  induction schedule as [| t schedule IH]; intros s Hexit.
  - split; reflexivity.
  - destruct t.
    + assert (Hsame : step s TickerThread = s).
      { unfold step, step_thread. destruct s as [sh [p l] cal].
        cbn in Hexit. subst p. reflexivity. }
      change (run (TickerThread :: schedule) s)
        with (run schedule (step s TickerThread)).
      rewrite Hsame. apply IH, Hexit.
    + change (run (CalendarThread :: schedule) s)
        with (run schedule (step s CalendarThread)).
      change (calendar_steps (CalendarThread :: schedule))
        with (CalendarThread :: calendar_steps schedule).
      change (run (CalendarThread :: calendar_steps schedule) s)
        with (run (calendar_steps schedule) (step s CalendarThread)).
      destruct (IH (step s CalendarThread)) as (Hrun & Hth); [exact Hexit |].
      split; [exact Hrun |]. rewrite Hth. reflexivity.
Qed.

(** C8. A ticker whose [length + padding] exceeds [TEXT_MAX_LENGTH] leaves
    at its first step with [pthread_exit]: its text and the rest of its
    parameter block are as they were, nothing has been written to the
    display, the mutex and the calendar thread are untouched; and from then
    on the system runs as if the calendar alone were scheduled, the ticker
    staying exited. *)
Theorem displayTicker_oversized_exits :
  forall (s : system),
    fst (ticker_thread s) = AtStart ->
    (TEXT_MAX_LENGTH H
     < ticker_length (ticker (snd (ticker_thread s)))
       + ticker_padding (ticker (snd (ticker_thread s))))%nat ->
    let s' := step s TickerThread in
    ticker_thread s' = (Exited, snd (ticker_thread s))
    /\ shared_state s' = shared_state s
    /\ calendar_thread s' = calendar_thread s
    /\ forall schedule,
        run schedule s' = run (calendar_steps schedule) s'
        /\ ticker_thread (run schedule s') = (Exited, snd (ticker_thread s)).
Proof.
  intros s Hstart Hbig s'.
  assert (Hth : ticker_thread s' = (Exited, snd (ticker_thread s))).
  { unfold s', step. destruct s as [sh [p l] cal]. cbn in Hstart, Hbig. subst p.
    cbn. unfold displayTicker_start.
    destruct (Nat.ltb_spec (TEXT_MAX_LENGTH H)
                (ticker_length (ticker l) + ticker_padding (ticker l)))
      as [_ | Hge]; [reflexivity | lia]. }
  split; [exact Hth |].
  split; [unfold s', step; destruct s as [sh [p l] cal];
          cbn in Hstart; subst p; reflexivity |].
  split; [reflexivity |].
  intros schedule.
  destruct (run_ticker_exited schedule s') as (Hrun & Hkeep).
  { rewrite Hth. reflexivity. }
  split; [exact Hrun |]. rewrite Hkeep. exact Hth.
Qed.

End PresenterProofs.

(** The oversized ticker of the examples, started next to the calendar on
    the 20x4 panel: 120 + 20 characters against [TEXT_MAX_LENGTH] = 128. *)
Lemma displayTicker_oversized_exits_witness :
  let step' := step reliable_bus datasheet_20x4 example_gotoRowPos
                    example_writeString (example_writeString example_display)
                    example_strftime in
  let run' := run reliable_bus datasheet_20x4 example_gotoRowPos
                  example_writeString (example_writeString example_display)
                  example_strftime in
  let s := boot oversized_ticker example_calendar in
  let s' := step' s TickerThread in
  ticker_thread s' = (Exited, snd (ticker_thread s))
  /\ shared_state s' = shared_state s
  /\ calendar_thread s' = calendar_thread s
  /\ forall schedule,
      run' schedule s' = run' (calendar_steps schedule) s'
      /\ ticker_thread (run' schedule s') = (Exited, snd (ticker_thread s)).
Proof.
  intros step' run' s s'.
  apply (displayTicker_oversized_exits
           reliable_bus datasheet_20x4 example_gotoRowPos example_writeString
           (example_writeString example_display) example_strftime s).
  - reflexivity.
  - vm_compute. lia.
Defined.

(** ** Worked examples *)

Example rotateString_hello :
  rotateString ["h"; "e"; "l"; "l"; "o"; zero]%char 5 2
  = Some ["l"; "l"; "o"; "h"; "e"; zero]%char.
Proof. reflexivity. Qed.

Example reverseString_outside_buffer :
  reverseString ["a"; "b"]%char 0 3 = None.
Proof. reflexivity. Qed.

Example rotateString_empty_length :
  rotateString ["a"; "b"]%char 0 1 = None.
Proof. reflexivity. Qed.

Example hd44780WriteByte_0x41_latch :
  latch (snd (hd44780WriteByte reliable_bus example_display 0x41 MODE_DATA
                               power_on)) = 0x8c.
Proof. vm_compute. reflexivity. Qed.

(** The small ticker and the calendar under a scheduler that alternates
    between them: in the log each thread's operations come in whole bursts of
    40 (ticker) and 60 (calendar) operations, the last one still being
    written. *)
Example presenters_round_robin :
  writers (log (shared_state
                  (run reliable_bus datasheet_20x4 example_gotoRowPos
                       example_writeString
                       (example_writeString example_display)
                       example_strftime (round_robin 150)
                       (boot small_ticker example_calendar))))
  = [(TickerThread, 40%nat); (CalendarThread, 60%nat);
     (TickerThread, 40%nat); (CalendarThread, 3%nat)].
Proof. vm_compute. reflexivity. Qed.

(** Loading the glyph table of the source: the CGRAM command, 7 x 8 data
    bytes and the DDRAM command, six transactions each. *)
Example loadCustom_pacMan :
  fst (loadCustom reliable_bus datasheet_20x4 example_display pacMan power_on)
  = 0
  /\ transactions
       (trace (snd (loadCustom reliable_bus datasheet_20x4 example_display
                               pacMan power_on)))
     = (6 * (1 + 7 * 8 + 1))%nat.
Proof. split; vm_compute; reflexivity. Qed.

(** The same run: the bursts begun, with their sizes. The fourth burst, of
    60 operations, is the one of which the log holds the first three. *)
Example presenters_round_robin_begun :
  map (fun b => (fst b, length (snd b)))
      (bursts_begun reliable_bus datasheet_20x4 example_gotoRowPos
                    example_writeString
                    (example_writeString example_display)
                    example_strftime (round_robin 150)
                    (boot small_ticker example_calendar))
  = [(TickerThread, 40%nat); (CalendarThread, 60%nat);
     (TickerThread, 40%nat); (CalendarThread, 60%nat)].
Proof. vm_compute. reflexivity. Qed.

(** What [hd44780Goto] announces for row 1, column 3 of the 20x4 panel. *)
Example hd44780Goto_console :
  printed_by (hd44780Goto reliable_bus datasheet_20x4 example_display 1 3)
             power_on
  = [ Printf "\nCommand byte = 0x%02x.\n" [0xc3];
      Printf "Writing high nibble 0x%x.\n" [0xc];
      Printf "Toggling EN bit for high nibble.\n" [];
      Printf "Writing low nibble 0x%x.\n" [0x3];
      Printf "Toggling EN bit for low nibble.\n" [] ].
Proof. vm_compute. reflexivity. Qed.
